(** * The consumer-side proxy layer of vfs (src/socket/consumer.js)

    A shallow embedding of [Consumer]: the four proxy registries, the
    subscription tables, the inbound notification handlers, the [on]/[off]
    subscription manager and the [route] facade, followed by the properties
    of the specification that concern them.

    Modelling conventions.
    - A JS object used as a dictionary ([proxyStreams], [handlers], ...) is a
      [gmap] of its own properties, keyed by the property name; identifiers
      received from the wire index these objects and are therefore strings
      here.  The seven dictionaries are object literals, so reading a name
      they do not own finds what [Object.prototype] has under that name:
      [get] is that read, and the code's tests for presence go through it.
      Writing under "__proto__" would replace the prototype instead of
      storing an entry: a token is taken not to carry that identifier (the
      subscription tables are never written under an inherited name).
    - Every object built with [new] (a stream, a process, a watcher, an api
      proxy) carries an identity [Obj]; the properties this module sets on it
      at construction are never written again by the module, so a registry
      stores the object's properties next to its identity.
    - The arrays in [pendingOn] and [pendingOff] are shared between the table
      and the acknowledgement closure handed to the transport, so they live
      in a store ([arrays]) and both sides hold a reference.
    - Everything outside the module is an effect recorded in a log, in the
      order the code performs it: a call of a user function (callback or
      handler), an [emit] on a proxy, a call of the transport ([remote.*]).
      Each effect is logged with the state in which the code performs it,
      which is the state a listener or callback would observe.  User
      functions and listeners are opaque: they are taken to return normally
      and not to re-enter the module while it runs.
    - A JS exception is a [Throw] completion; the state and the trace built
      before the throw are kept, as in JS. *)

From stdpp Require Import base option list strings gmap.

Open Scope string_scope.
Open Scope list_scope.
Open Scope nat_scope.

(** ** Values *)

Abbreviation Key := string (only parsing).
Abbreviation Fn := nat (only parsing).
Abbreviation Obj := nat (only parsing).
Abbreviation Ref := nat (only parsing).

(** The JS values that pass through the module unchanged (chunks, exit codes,
    signals, errors, event payloads, call arguments). [VObject] is any
    object, for instance an [Error]. *)
#[warnings="-register-all"]
Inductive Val :=
| VUndefined
| VNull
| VBool (b : bool)
| VNum (n : Z)
| VStr (s : string)
| VArray (items : list Val)
| VObject (o : nat).

Definition truthy (v : Val) : bool :=
  match v with
  | VUndefined | VNull => false
  | VBool b => b
  | VNum n => negb (n =? 0)%Z
  | VStr s => negb (String.eqb s "")
  | VArray _ | VObject _ => true
  end.

Inductive JsError :=
| TypeError
| Error (message : string).

(** ** Reading a property of a dictionary *)

(** The properties of [Object.prototype], each with what [.length] reads on
    its value: the arity of the function, or nothing for the object under
    "__proto__".  All these values are truthy, none has [push] or [emit],
    and none has an element [0]. *)
Definition Object_prototype : list (string * option nat) :=
  [("constructor", Some 1); ("hasOwnProperty", Some 1);
   ("isPrototypeOf", Some 1); ("propertyIsEnumerable", Some 1);
   ("toLocaleString", Some 0); ("toString", Some 0); ("valueOf", Some 0);
   ("__defineGetter__", Some 2); ("__defineSetter__", Some 2);
   ("__lookupGetter__", Some 1); ("__lookupSetter__", Some 1);
   ("__proto__", None)].

Definition prototype_length (name : Key) : option (option nat) :=
  (list_to_map Object_prototype : gmap string (option nat)) !! name.

Definition inherited (name : Key) : bool :=
  match prototype_length name with
  | Some _ => true
  | None => false
  end.

(** What [object[name]] reads: the own property, else the inherited one,
    else [undefined]. *)
Inductive Property (A : Type) :=
| Own (a : A)
| Inherited (length : option nat)
| Missing.
Arguments Own {A} a.
Arguments Inherited {A} length.
Arguments Missing {A}.

Definition get {A} (object : gmap string A) (name : Key) : Property A :=
  match object !! name with
  | Some a => Own a
  | None =>
      match prototype_length name with
      | Some length => Inherited length
      | None => Missing
      end
  end.

(** ** Tokens and proxies *)

(** [t_readable] and [t_writable] are [None] when the token has no such own
    property ([token.hasOwnProperty]). *)
Record StreamToken := {
  t_id : Key;
  t_readable : option Val;
  t_writable : option Val
}.

Record ProcessToken := {
  t_pid : Key;
  t_stdout : StreamToken;
  t_stderr : StreamToken;
  t_stdin : StreamToken
}.

Record WatcherToken := { wt_id : Key }.

Record ApiToken := { at_name : Key; at_names : list string }.

(** A [new Stream()] has neither [readable] nor [writable]: both read as
    [undefined] until [makeStreamProxy] copies them from the token. *)
Record StreamProxy := {
  s_obj : Obj;
  s_id : Key;
  s_readable : Val;
  s_writable : Val
}.

Record ProcessProxy := {
  p_obj : Obj;
  p_pid : Key;
  p_stdout : StreamProxy;
  p_stderr : StreamProxy;
  p_stdin : StreamProxy
}.

Record WatcherProxy := { w_obj : Obj; w_id : Key }.

(** [a_name] is the [name] captured by the forwarding functions installed
    on the proxy, [a_functions] the property names under which they are. *)
Record ApiProxy := { a_obj : Obj; a_name : Key; a_functions : list string }.

(** The result object of a remote call, restricted to the four properties
    [route] inspects; its other properties reach the callback untouched. *)
Record Meta := {
  m_stream : option StreamToken;
  m_process : option ProcessToken;
  m_watcher : option WatcherToken;
  m_api : option ApiToken
}.

(** The same object after [route] has replaced the tokens by proxies. *)
Record MetaProxies := {
  r_stream : option StreamProxy;
  r_process : option ProcessProxy;
  r_watcher : option WatcherProxy;
  r_api : option ApiProxy
}.

(** ** Effects *)

(** The function values the module hands to the transport. *)
Inductive Closure :=
| SubscribeAck (name : Key) (pending : Ref)
| UnsubscribeAck (name : Key) (pending : Ref)
| RouteReply (callback : Fn)
| UserCallback (callback : option Fn).

Inductive Effect :=
| Invoke (f : Fn) (args : list Val)
| InvokeMeta (f : Fn) (meta : MetaProxies)
| Emit (obj : Obj) (event : string) (args : list Val)
| Remote (method : string) (args : list Val) (k : option Closure).

(** ** State *)

(** The variables of the [Consumer] closure.  [arrays] is the store of the
    arrays referred to by [pendingOn] and [pendingOff]; [next] is the next
    free identity for an object or an array. *)
Record State := {
  proxyStreams : gmap string StreamProxy;
  proxyProcesses : gmap string ProcessProxy;
  proxyWatchers : gmap string WatcherProxy;
  proxyApis : gmap string ApiProxy;
  handlers : gmap string (list Fn);
  pendingOn : gmap string Ref;
  pendingOff : gmap string Ref;
  arrays : gmap Ref (list Fn);
  next : nat
}.

Definition init : State :=
  {| proxyStreams := ∅; proxyProcesses := ∅; proxyWatchers := ∅;
     proxyApis := ∅; handlers := ∅; pendingOn := ∅; pendingOff := ∅;
     arrays := ∅; next := 0 |}.

Definition set_proxyStreams (f : gmap string StreamProxy → gmap string StreamProxy)
    (s : State) : State :=
  {| proxyStreams := f (proxyStreams s); proxyProcesses := proxyProcesses s;
     proxyWatchers := proxyWatchers s; proxyApis := proxyApis s;
     handlers := handlers s; pendingOn := pendingOn s;
     pendingOff := pendingOff s; arrays := arrays s; next := next s |}.

Definition set_proxyProcesses (f : gmap string ProcessProxy → gmap string ProcessProxy)
    (s : State) : State :=
  {| proxyStreams := proxyStreams s; proxyProcesses := f (proxyProcesses s);
     proxyWatchers := proxyWatchers s; proxyApis := proxyApis s;
     handlers := handlers s; pendingOn := pendingOn s;
     pendingOff := pendingOff s; arrays := arrays s; next := next s |}.

Definition set_proxyWatchers (f : gmap string WatcherProxy → gmap string WatcherProxy)
    (s : State) : State :=
  {| proxyStreams := proxyStreams s; proxyProcesses := proxyProcesses s;
     proxyWatchers := f (proxyWatchers s); proxyApis := proxyApis s;
     handlers := handlers s; pendingOn := pendingOn s;
     pendingOff := pendingOff s; arrays := arrays s; next := next s |}.

Definition set_proxyApis (f : gmap string ApiProxy → gmap string ApiProxy)
    (s : State) : State :=
  {| proxyStreams := proxyStreams s; proxyProcesses := proxyProcesses s;
     proxyWatchers := proxyWatchers s; proxyApis := f (proxyApis s);
     handlers := handlers s; pendingOn := pendingOn s;
     pendingOff := pendingOff s; arrays := arrays s; next := next s |}.

Definition set_handlers (f : gmap string (list nat) → gmap string (list nat))
    (s : State) : State :=
  {| proxyStreams := proxyStreams s; proxyProcesses := proxyProcesses s;
     proxyWatchers := proxyWatchers s; proxyApis := proxyApis s;
     handlers := f (handlers s); pendingOn := pendingOn s;
     pendingOff := pendingOff s; arrays := arrays s; next := next s |}.

Definition set_pendingOn (f : gmap string nat → gmap string nat)
    (s : State) : State :=
  {| proxyStreams := proxyStreams s; proxyProcesses := proxyProcesses s;
     proxyWatchers := proxyWatchers s; proxyApis := proxyApis s;
     handlers := handlers s; pendingOn := f (pendingOn s);
     pendingOff := pendingOff s; arrays := arrays s; next := next s |}.

Definition set_pendingOff (f : gmap string nat → gmap string nat)
    (s : State) : State :=
  {| proxyStreams := proxyStreams s; proxyProcesses := proxyProcesses s;
     proxyWatchers := proxyWatchers s; proxyApis := proxyApis s;
     handlers := handlers s; pendingOn := pendingOn s;
     pendingOff := f (pendingOff s); arrays := arrays s; next := next s |}.

Definition set_arrays (f : gmap nat (list nat) → gmap nat (list nat))
    (s : State) : State :=
  {| proxyStreams := proxyStreams s; proxyProcesses := proxyProcesses s;
     proxyWatchers := proxyWatchers s; proxyApis := proxyApis s;
     handlers := handlers s; pendingOn := pendingOn s;
     pendingOff := pendingOff s; arrays := f (arrays s); next := next s |}.

Definition set_next (f : nat → nat) (s : State) : State :=
  {| proxyStreams := proxyStreams s; proxyProcesses := proxyProcesses s;
     proxyWatchers := proxyWatchers s; proxyApis := proxyApis s;
     handlers := handlers s; pendingOn := pendingOn s;
     pendingOff := pendingOff s; arrays := arrays s; next := f (next s) |}.

(** ** The monad of a JS function body: state, log, exceptions *)

Inductive Completion (A : Type) :=
| Normal (a : A)
| Throw (e : JsError).
Arguments Normal {A} a.
Arguments Throw {A} e.

Definition Log : Type := list (State * Effect).

Definition M (A : Type) : Type := State → State * Log * Completion A.

Definition ret {A} (a : A) : M A := λ s, (s, [], Normal a).

Definition bind {A B} (m : M A) (k : A → M B) : M B := λ s,
  match m s with
  | (s1, t1, Normal a) =>
      match k a s1 with
      | (s2, t2, c) => (s2, t1 ++ t2, c)
      end
  | (s1, t1, Throw e) => (s1, t1, Throw e)
  end.

#[global] Instance M_ret : MRet M := @ret.
#[global] Instance M_bind : MBind M := λ A B k m, bind m k.

Definition gets {A} (f : State → A) : M A := λ s, (s, [], Normal (f s)).
Definition modify (f : State → State) : M unit := λ s, (f s, [], Normal tt).
Definition tell (e : Effect) : M unit := λ s, (s, [(s, e)], Normal tt).
Definition throw {A} (e : JsError) : M A := λ s, (s, [], Throw e).

(** [for (i = 0; i < l.length; i++) body(l[i])] and [l.forEach(body)]. *)
Fixpoint forEach {A} (l : list A) (body : A → M unit) : M unit :=
  match l with
  | [] => mret tt
  | x :: l' => body x ;; forEach l' body
  end.

(** Accessors of a finished run. *)
Definition state_of {A} (r : State * Log * Completion A) : State := r.1.1.
Definition log_of {A} (r : State * Log * Completion A) : Log := r.1.2.
Definition trace_of {A} (r : State * Log * Completion A) : list Effect := r.1.2.*2.
Definition completion_of {A} (r : State * Log * Completion A) : Completion A := r.2.

(** ** Primitive steps *)

(** [x.p] or [x.m(...)] on a value read from a dictionary: a [TypeError]
    when the value is [undefined]. *)
Definition deref {A} (x : option A) : M A :=
  match x with
  | Some a => mret a
  | None => throw TypeError
  end.

(** [f(args)] where [f] may be [undefined]. *)
Definition call (f : option Fn) (args : list Val) : M unit :=
  match f with
  | Some g => tell (Invoke g args)
  | None => throw TypeError
  end.

Definition emitEvent (obj : Obj) (event : string) (args : list Val) : M unit :=
  tell (Emit obj event args).

Definition remote (method : string) (args : list Val) (k : option Closure) : M unit :=
  tell (Remote method args k).

(** [new Stream()], [new EventEmitter()]: a fresh identity. *)
Definition newObject : M Obj :=
  o ← gets next; modify (set_next S) ;; mret o.

(** [[]]: a fresh empty array in the store. *)
Definition newArray : M Ref :=
  r ← gets next;
  modify (set_next S) ;;
  modify (set_arrays <[r := []]>) ;;
  mret r.

(** [array.push(f)]. *)
Definition push (r : Ref) (f : Fn) : M unit :=
  modify (set_arrays (λ h, <[r := default [] (h !! r) ++ [f]]> h)).

(** The contents of an array.  Every reference handed out by [newArray]
    is in the store; a reference that is not reads as the empty array. *)
Definition readArray (r : Ref) : M (list Fn) :=
  gets (λ s, default [] (arrays s !! r)).

(** [callback && pending.push(callback)]. *)
Definition pushIfGiven (r : Ref) (callback : option Fn) : M unit :=
  match callback with
  | Some f => push r f
  | None => mret tt
  end.

(** The same statement when the table entry read is an inherited value,
    which has no [push]. *)
Definition pushOnInherited (callback : option Fn) : M unit :=
  match callback with
  | Some _ => throw TypeError
  | None => mret tt
  end.

(** ** Proxy construction *)

(** The proxy is stored under [token.id]; its two flags are copied from the
    token when the token has them. *)
Definition makeStreamProxy (token : StreamToken) : M StreamProxy :=
  o ← newObject;
  let stream :=
    {| s_obj := o; s_id := t_id token;
       s_readable := default VUndefined (t_readable token);
       s_writable := default VUndefined (t_writable token) |} in
  modify (set_proxyStreams <[t_id token := stream]>) ;;
  mret stream.

(** The process object is created first, then its three streams in the
    order stdout, stderr, stdin.  The source stores the process under
    [token.pid] before it builds the streams; building them neither reads
    [proxyProcesses] nor throws, so the entry is written here once the
    three properties are known. *)
Definition makeProcessProxy (token : ProcessToken) : M ProcessProxy :=
  o ← newObject;
  stdout ← makeStreamProxy (t_stdout token);
  stderr ← makeStreamProxy (t_stderr token);
  stdin ← makeStreamProxy (t_stdin token);
  let process :=
    {| p_obj := o; p_pid := t_pid token;
       p_stdout := stdout; p_stderr := stderr; p_stdin := stdin |} in
  modify (set_proxyProcesses <[t_pid token := process]>) ;;
  mret process.

Definition makeWatcherProxy (token : WatcherToken) : M WatcherProxy :=
  o ← newObject;
  let watcher := {| w_obj := o; w_id := wt_id token |} in
  modify (set_proxyWatchers <[wt_id token := watcher]>) ;;
  mret watcher.

Definition makeApiProxy (token : ApiToken) : M ApiProxy :=
  o ← newObject;
  let api := {| a_obj := o; a_name := at_name token;
                a_functions := at_names token |} in
  modify (set_proxyApis <[at_name token := api]>) ;;
  mret api.

(** ** Methods installed on the proxies *)

Definition streamWrite (stream : StreamProxy) (chunk : Val) : M unit :=
  if truthy (s_writable stream)
  then remote "write" [VStr (s_id stream); chunk] None
  else throw TypeError.

Definition streamEnd (stream : StreamProxy) (chunk : Val) : M unit :=
  if truthy (s_writable stream)
  then if truthy chunk
       then remote "end" [VStr (s_id stream); chunk] None
       else remote "end" [VStr (s_id stream)] None
  else throw TypeError.

Definition streamDestroy (stream : StreamProxy) : M unit :=
  if truthy (s_readable stream)
  then remote "destroy" [VStr (s_id stream)] None
  else throw TypeError.

Definition processKill (process : ProcessProxy) (signal : Val) : M unit :=
  remote "kill" [VStr (p_pid process); signal] None.

Definition watcherClose (watcher : WatcherProxy) : M unit :=
  remote "close" [VStr (w_id watcher)] None ;;
  modify (set_proxyWatchers (delete (w_id watcher))).

(** [api[functionName](args...)].  Under a declared name this is the
    forwarding function installed by [makeApiProxy].  Under any other name
    the proxy has no function of this module: such a call runs a method of
    the emitter or fails at the call site, and no code of the module runs,
    so the module takes no step. *)
Definition apiCall (api : ApiProxy) (functionName : string) (args : list Val) : M unit :=
  if bool_decide (functionName ∈ a_functions api)
  then remote "call" [VStr (a_name api); VStr functionName; VArray args] None
  else mret tt.

(** ** Inbound notifications *)

(** [onExit], [onData] and [onEnd] call [emit] on whatever the registry
    reads: an inherited value has no [emit] any more than [undefined] has,
    so both raise the same [TypeError] and [deref] of the own entry is the
    whole of the read. *)
Definition onExit (pid : Key) (code signal : Val) : M unit :=
  p ← gets (λ s, proxyProcesses s !! pid);
  process ← deref p;
  emitEvent (p_obj process) "exit" [code; signal] ;;
  modify (set_proxyProcesses (delete pid)) ;;
  modify (set_proxyStreams (delete (s_id (p_stdout process)))) ;;
  modify (set_proxyStreams (delete (s_id (p_stderr process)))) ;;
  modify (set_proxyStreams (delete (s_id (p_stdin process)))).

Definition onData (id : Key) (chunk : Val) : M unit :=
  p ← gets (λ s, proxyStreams s !! id);
  stream ← deref p;
  emitEvent (s_obj stream) "data" [chunk].

Definition onEnd (id : Key) : M unit :=
  p ← gets (λ s, proxyStreams s !! id);
  stream ← deref p;
  emitEvent (s_obj stream) "end" [] ;;
  modify (set_proxyStreams (delete id)).

(** [if (!stream) return;] lets an inherited value through, and
    [stream.emit] is then not a function. *)
Definition onClose (id : Key) : M unit :=
  p ← gets (λ s, get (proxyStreams s) id);
  match p with
  | Missing => mret tt
  | Inherited _ => throw TypeError
  | Own stream =>
      emitEvent (s_obj stream) "close" [] ;;
      modify (set_proxyStreams (delete id))
  end.

Definition onChange (id : Key) (event filename : Val) : M unit :=
  p ← gets (λ s, get (proxyWatchers s) id);
  match p with
  | Missing => mret tt
  | Inherited _ => throw TypeError
  | Own watcher => emitEvent (w_obj watcher) "change" [event; filename]
  end.

(** [api.emit("ready")] is the emitter's [emit] unless the token declared a
    function "emit", which [makeApiProxy] has then installed over it. *)
Definition onReady (name : Key) : M unit :=
  p ← gets (λ s, get (proxyApis s) name);
  match p with
  | Missing => mret tt
  | Inherited _ => throw TypeError
  | Own api =>
      if bool_decide ("emit" ∈ a_functions api)
      then apiCall api "emit" [VStr "ready"]
      else emitEvent (a_obj api) "ready" []
  end.

(** On an inherited value [list.length] is the arity of the function (or
    [undefined] for the object under "__proto__"); when it is positive the
    loop calls [list[0]], which is [undefined]. *)
Definition onEvent (name : Key) (value : Val) : M unit :=
  p ← gets (λ s, get (handlers s) name);
  match p with
  | Missing => mret tt
  | Inherited (Some (S _)) => throw TypeError
  | Inherited _ => mret tt
  | Own list => forEach list (λ handler, tell (Invoke handler [value]))
  end.

(** The listener of the agent's own "drain" event: [drainStream] is the
    function it applies to each key.  [Object.keys] lists the own keys; it
    is taken here in the enumeration order of the map, which is not the
    order of the source (integer-like keys ascending, then the others as
    inserted), so the order of the emits is not modelled.  Each key is then
    read again. *)
Definition drainStream (id : Key) : M unit :=
  p ← gets (λ s, proxyStreams s !! id);
  stream ← deref p;
  if truthy (s_writable stream) then emitEvent (s_obj stream) "drain" [] else mret tt.

Definition onDrain : M unit :=
  keys ← gets (λ s, (map_to_list (proxyStreams s)).*1);
  forEach keys drainStream.

(** ** Subscription manager *)

(** The function passed to [remote.subscribe]: it holds [name] and the
    array [pending] it was created with. *)
Definition subscribed (name : Key) (pending : Ref) (err : Val) : M unit :=
  callbacks ← readArray pending;
  forEach callbacks (λ callback, tell (Invoke callback [err])) ;;
  modify (set_pendingOn (delete name)).

(** [handlers[name]] and [pendingOn[name]] are tested for truth: an
    inherited value passes the test and fails at [push]. *)
Definition on (name : Key) (handler : Fn) (callback : option Fn) : M unit :=
  h ← gets (λ s, get (handlers s) name);
  match h with
  | Own registered =>
      modify (set_handlers <[name := registered ++ [handler]]>) ;;
      q ← gets (λ s, get (pendingOn s) name);
      match q with
      | Own pending => pushIfGiven pending callback
      | Inherited _ => pushOnInherited callback
      | Missing => call callback []
      end
  | Inherited _ => throw TypeError
  | Missing =>
      modify (set_handlers <[name := [handler]]>) ;;
      pending ← newArray;
      modify (set_pendingOn <[name := pending]>) ;;
      pushIfGiven pending callback ;;
      remote "subscribe" [VStr name] (Some (SubscribeAck name pending))
  end.

(** The function passed to [remote.unsubscribe]. *)
Definition unsubscribed (name : Key) (pending : Ref) (err : Val) : M unit :=
  modify (set_handlers (delete name)) ;;
  callbacks ← readArray pending;
  forEach callbacks (λ callback, tell (Invoke callback [err])) ;;
  modify (set_pendingOff (delete name)).

Definition off (name : Key) (handler : Fn) (callback : option Fn) : M unit :=
  q ← gets (λ s, get (pendingOff s) name);
  match q with
  | Own pending => pushIfGiven pending callback
  | Inherited _ => pushOnInherited callback
  | Missing =>
      h ← gets (λ s, get (handlers s) name);
      match h with
      | Missing => call callback []
      | Own _ | Inherited _ =>
          pending ← newArray;
          modify (set_pendingOff <[name := pending]>) ;;
          pushIfGiven pending callback ;;
          remote "unsubscribe" [VStr name] (Some (UnsubscribeAck name pending))
      end
  end.

(** ** Facade *)

Definition emit (args : list Val) : M unit := remote "emit" args None.

Definition ping (callback : option Fn) : M unit :=
  remote "ping" [] (Some (UserCallback callback)).

Definition route (name : string) (path options : Val) (callback : option Fn) : M unit :=
  match callback with
  | None => throw (Error ("Forgot to pass in callback for " ++ name)%string)
  | Some cb => remote name [path; options] (Some (RouteReply cb))
  end.

Definition substitute {A B} (make : A → M B) (token : option A) : M (option B) :=
  match token with
  | Some t => b ← make t; mret (Some b)
  | None => mret None
  end.

(** The function [route] passes to the transport as the last argument of
    the remote call; [meta] is [None] when the transport passes none. *)
Definition routed (callback : Fn) (err : Val) (meta : option Meta) : M unit :=
  if truthy err then tell (Invoke callback [err])
  else
    m ← deref meta;
    stream ← substitute makeStreamProxy (m_stream m);
    process ← substitute makeProcessProxy (m_process m);
    watcher ← substitute makeWatcherProxy (m_watcher m);
    api ← substitute makeApiProxy (m_api m);
    tell (InvokeMeta callback
            {| r_stream := stream; r_process := process;
               r_watcher := watcher; r_api := api |}).

(** The operations of [this.vfs] built by [route]. *)
Definition routes : list string :=
  ["spawn"; "exec"; "connect"; "readfile"; "mkfile"; "rmfile"; "readdir";
   "stat"; "mkdir"; "rmdir"; "rename"; "copy"; "symlink"; "watch";
   "changedSince"; "extend"].


(** ** The module as a reactive system *)

(** Everything that can enter the module: a call of a [vfs] function or of a
    method of a proxy by the user, a notification or the call of a closure
    by the transport. *)
Inductive Input :=
| CallRoute (name : string) (path options : Val) (callback : option Fn)
| CallPing (callback : option Fn)
| CallEmit (args : list Val)
| CallOn (name : Key) (handler : Fn) (callback : option Fn)
| CallOff (name : Key) (handler : Fn) (callback : option Fn)
| CallWrite (stream : StreamProxy) (chunk : Val)
| CallEnd (stream : StreamProxy) (chunk : Val)
| CallDestroy (stream : StreamProxy)
| CallKill (process : ProcessProxy) (signal : Val)
| CallClose (watcher : WatcherProxy)
| CallApi (api : ApiProxy) (functionName : string) (args : list Val)
| Answer (k : Closure) (err : Val) (meta : option Meta)
| Exit (pid : Key) (code signal : Val)
| Data (id : Key) (chunk : Val)
| End (id : Key)
| Close (id : Key)
| Change (id : Key) (event filename : Val)
| Ready (name : Key)
| Event (name : Key) (value : Val)
| Drain.

(** The transport calling back a function it was given.  A user callback
    passed through unchanged ([ping]) runs outside the module. *)
Definition answer (k : Closure) (err : Val) (meta : option Meta) : M unit :=
  match k with
  | SubscribeAck name pending => subscribed name pending err
  | UnsubscribeAck name pending => unsubscribed name pending err
  | RouteReply callback => routed callback err meta
  | UserCallback _ => mret tt
  end.

Definition handle (i : Input) : M unit :=
  match i with
  | CallRoute name path options callback => route name path options callback
  | CallPing callback => ping callback
  | CallEmit args => emit args
  | CallOn name handler callback => on name handler callback
  | CallOff name handler callback => off name handler callback
  | CallWrite stream chunk => streamWrite stream chunk
  | CallEnd stream chunk => streamEnd stream chunk
  | CallDestroy stream => streamDestroy stream
  | CallKill process signal => processKill process signal
  | CallClose watcher => watcherClose watcher
  | CallApi api functionName args => apiCall api functionName args
  | Answer k err meta => answer k err meta
  | Exit pid code signal => onExit pid code signal
  | Data id chunk => onData id chunk
  | End id => onEnd id
  | Close id => onClose id
  | Change id event filename => onChange id event filename
  | Ready name => onReady name
  | Event name value => onEvent name value
  | Drain => onDrain
  end.

(** A sequence of inputs, each handled in its own turn: an exception ends
    the turn it is raised in, not the sequence.  The result is the final
    state and, for each input in order, the effects of its turn. *)
Fixpoint run (s : State) (inputs : list Input) : State * list (Input * list Effect) :=
  match inputs with
  | [] => (s, [])
  | i :: rest =>
      let r := handle i s in
      let '(s', turns) := run (state_of r) rest in
      (s', (i, trace_of r) :: turns)
  end.

Definition reachable (s : State) : Prop := ∃ inputs, (run init inputs).1 = s.

(** ** Vocabulary of the properties *)

(** The state [onExit] leaves behind for a registered process. *)
Definition torn_down (pid : Key) (process : ProcessProxy) (s : State) : State :=
  set_proxyStreams (delete (s_id (p_stdin process)))
    (set_proxyStreams (delete (s_id (p_stderr process)))
       (set_proxyStreams (delete (s_id (p_stdout process)))
          (set_proxyProcesses (delete pid) s))).

(** The state after [callback && pending.push(callback)]. *)
Definition queued (pending : Ref) (callback : option Fn) (s : State) : State :=
  match callback with
  | Some f => set_arrays (λ h, <[pending := default [] (h !! pending) ++ [f]]> h) s
  | None => s
  end.

(** Invariant of the reachable states.  A stream proxy is stored under its
    own id, object identities and array references already handed out are
    below the allocation counter, and no stream object is stored under two
    keys. *)
Record streams_ok (m : gmap string StreamProxy) (n : nat) : Prop := {
  stream_key : ∀ id st, m !! id = Some st → s_id st = id;
  stream_obj_lt : ∀ id st, m !! id = Some st → s_obj st < n;
  stream_obj_inj : ∀ id1 id2 st1 st2,
    m !! id1 = Some st1 → m !! id2 = Some st2 → s_obj st1 = s_obj st2 → id1 = id2
}.

Definition refs_below (m : gmap string nat) (n : nat) : Prop :=
  ∀ k r, m !! k = Some r → r < n.

Record wf (s : State) : Prop := {
  wf_streams : streams_ok (proxyStreams s) (next s);
  wf_pendingOn : refs_below (pendingOn s) (next s);
  wf_pendingOff : refs_below (pendingOff s) (next s)
}.

(** A call [remote.method(name, ...)] with the event name as its only
    plain argument: the shape of a wire-level subscribe or unsubscribe. *)
Definition is_wire (method : string) (name : Key) (e : Effect) : bool :=
  match e with
  | Remote m [VStr n] _ => bool_decide (m = method ∧ n = name)
  | _ => false
  end.

Definition no_subscription (e : Effect) : Prop :=
  ∀ name, is_wire "subscribe" name e = false ∧ is_wire "unsubscribe" name e = false.

(** The inputs that run the subscription manager. *)
Definition subscription_input (i : Input) : bool :=
  match i with
  | CallOn _ _ _ | CallOff _ _ _
  | Answer (SubscribeAck _ _) _ _ | Answer (UnsubscribeAck _ _) _ _ => true
  | _ => false
  end.

Definition writable (stream : StreamProxy) : Prop := truthy (s_writable stream) = true.

#[global] Instance writable_dec (stream : StreamProxy) : Decision (writable stream).
Proof. unfold writable. apply _. Defined.

Definition drain_on (stream : StreamProxy) : Effect := Emit (s_obj stream) "drain" [].

(** Input [i] is a notification that removes the stream entry [id] in
    state [s]: an end or a close for [id], or the exit of a registered
    process one of whose three streams has this id. *)
Definition removes (id : Key) (i : Input) (s : State) : Prop :=
  i = End id ∨ i = Close id ∨
  ∃ pid code signal process,
    i = Exit pid code signal ∧ proxyProcesses s !! pid = Some process ∧
    id ∈ [s_id (p_stdout process); s_id (p_stderr process); s_id (p_stdin process)].

(** [on(name, handler, callback)] and [off(name, handler, callback)] among
    the inputs, and the calls by the transport of the functions that [on]
    and [off] passed to [remote.subscribe] and [remote.unsubscribe]. *)
Definition registration (name : Key) (i : Input) : option (Fn * option Fn) :=
  match i with
  | CallOn n handler callback =>
      if decide (n = name) then Some (handler, callback) else None
  | _ => None
  end.

Definition deregistration (name : Key) (i : Input) : option (option Fn) :=
  match i with
  | CallOff n _ callback => if decide (n = name) then Some callback else None
  | _ => None
  end.

Definition answers_subscribe (name : Key) (i : Input) : bool :=
  match i with
  | Answer (SubscribeAck n _) _ _ => bool_decide (n = name)
  | _ => false
  end.

Definition answers_unsubscribe (name : Key) (i : Input) : bool :=
  match i with
  | Answer (UnsubscribeAck n _) _ _ => bool_decide (n = name)
  | _ => false
  end.

(** All effects of a run, and those of the turns selected by [select]. *)
Definition effects (turns : list (Input * list Effect)) : list Effect :=
  concat turns.*2.

Definition effects_where {A} (select : Input → option A)
    (turns : list (Input * list Effect)) : list Effect :=
  concat (omap (λ turn, select turn.1 ≫= λ _, Some turn.2) turns).

(** The wire-level calls of [method] for [name] in a trace. *)
Definition wire_calls (method : string) (name : Key) (trace : list Effect) : list Effect :=
  filter (λ e, is_wire method name e = true) trace.

(** The callbacks actually passed, in order. *)
Definition given (callbacks : list (option Fn)) : list Fn := omap id callbacks.

(** A subscribe for [name] is awaiting its acknowledgement: the handlers
    registered so far are [registered], and the callbacks queued so far are
    [callbacks], in the array [pending] that only [pendingOn[name]] and the
    function given to the transport refer to. *)
Record subscribing (name : Key) (pending : Ref) (registered callbacks : list Fn)
    (s : State) : Prop := {
  sub_wf : wf s;
  sub_handlers : handlers s !! name = Some registered;
  sub_pending : pendingOn s !! name = Some pending;
  sub_array : arrays s !! pending = Some callbacks;
  sub_below : pending < next s;
  sub_on : ∀ n, pendingOn s !! n = Some pending → n = name;
  sub_off : ∀ n, pendingOff s !! n ≠ Some pending
}.

(** An unsubscribe for [name] is awaiting its acknowledgement. *)
Record unsubscribing (name : Key) (pending : Ref) (callbacks : list Fn)
    (s : State) : Prop := {
  unsub_wf : wf s;
  unsub_handlers : is_Some (handlers s !! name);
  unsub_pending : pendingOff s !! name = Some pending;
  unsub_array : arrays s !! pending = Some callbacks;
  unsub_below : pending < next s;
  unsub_on : ∀ n, pendingOn s !! n ≠ Some pending;
  unsub_off : ∀ n, pendingOff s !! n = Some pending → n = name
}.

(** Scenarios.  [spawned]: the spawn of the specification's example, pid 7
    with streams 1, 2 (readable) and 3 (writable), after its reply.
    [registering]: three registrations for "change" with other traffic in
    between, an event for "change" included.  [listening]: one handler for
    "change", acknowledged. *)
Definition spawn7 : Meta :=
  {| m_stream := None;
     m_process := Some
       {| t_pid := "7";
          t_stdout := {| t_id := "1"; t_readable := Some (VBool true); t_writable := None |};
          t_stderr := {| t_id := "2"; t_readable := Some (VBool true); t_writable := None |};
          t_stdin := {| t_id := "3"; t_readable := None; t_writable := Some (VBool true) |} |};
     m_watcher := None; m_api := None |}.

Definition spawned : list Input :=
  [CallRoute "spawn" (VStr "x") VNull (Some 100);
   Answer (RouteReply 100) VNull (Some spawn7)].

Definition stdin7 : StreamProxy :=
  {| s_obj := 3; s_id := "3"; s_readable := VUndefined; s_writable := VBool true |}.

Definition registering : list Input :=
  [CallOn "change" 1 (Some 11); Data "9" (VStr "x"); CallOn "change" 2 (Some 12);
   Event "change" (VStr "a.txt"); CallOff "change" 1 (Some 20);
   CallOn "other" 5 (Some 15); CallOn "change" 3 (Some 13)].

Definition listening : list Input :=
  [CallOn "change" 1 (Some 11); Answer (SubscribeAck "change" 0) VNull None].

Definition unregistering : list Input :=
  [CallOn "change" 2 (Some 12); CallOff "change" 2 (Some 22); Drain;
   CallOff "change" 1 None; CallOff "change" 1 (Some 23)].

(** [m] keeps [P] and only performs effects satisfying [Q]. *)
Definition respects {A} (P : State → Prop) (Q : Effect → Prop) (m : M A) : Prop :=
  ∀ s, P s → P (state_of (m s)) ∧ Forall Q (trace_of (m s)).

(** The subscription tables and the array store are those of [s0], and the
    allocation counter has not gone back. *)
Definition same_subscriptions (s0 s : State) : Prop :=
  handlers s = handlers s0 ∧ pendingOn s = pendingOn s0 ∧
  pendingOff s = pendingOff s0 ∧ arrays s = arrays s0 ∧ (next s0 ≤ next s)%nat.

(** Further scenarios.  [extended]: the [extend("math", {names: ["add",
    "multiply"]}, cb)] of src/example/test-child-extend.js after its reply,
    which carries a writable stream for the code and the api. *)
Definition extend_math : Meta :=
  {| m_stream := Some {| t_id := "4"; t_readable := None; t_writable := Some (VBool true) |};
     m_process := None; m_watcher := None;
     m_api := Some {| at_name := "math"; at_names := ["add"; "multiply"] |} |}.

Definition extended : list Input :=
  [CallRoute "extend" (VStr "math") VNull (Some 100);
   Answer (RouteReply 100) VNull (Some extend_math)].

Definition math : ApiProxy :=
  {| a_obj := 1; a_name := "math"; a_functions := ["add"; "multiply"] |}.

(** The stream proxy [makeStreamProxy] builds from [token] when the next
    free identity is [obj]. *)
Definition proxy_of (token : StreamToken) (obj : Obj) : StreamProxy :=
  {| s_obj := obj; s_id := t_id token;
     s_readable := default VUndefined (t_readable token);
     s_writable := default VUndefined (t_writable token) |}.

(** [stale_ack]: a subscribe, an unsubscribe acknowledged before the
    subscribe is, then a second subscribe; the acknowledgement of the first
    subscribe is still to come. *)
Definition stale_ack : list Input :=
  [CallOn "change" 1 (Some 11); CallOff "change" 1 (Some 21);
   Answer (UnsubscribeAck "change" 1) VNull None; CallOn "change" 2 (Some 12)].

(** Every registry entry is stored under the proxy's own identifier. *)
Record keyed (s : State) : Prop := {
  keyed_streams : ∀ id stream, proxyStreams s !! id = Some stream → s_id stream = id;
  keyed_processes : ∀ pid process,
    proxyProcesses s !! pid = Some process → p_pid process = pid;
  keyed_watchers : ∀ id watcher, proxyWatchers s !! id = Some watcher → w_id watcher = id;
  keyed_apis : ∀ name api, proxyApis s !! name = Some api → a_name api = name
}.

(** The pending tables refer to arrays that are in the store, and no array
    is referred to twice: not by two names, and not by both tables. *)
Record queues_ok (s : State) : Prop := {
  queues_on_below : refs_below (pendingOn s) (next s);
  queues_off_below : refs_below (pendingOff s) (next s);
  queues_on_stored : ∀ n r, pendingOn s !! n = Some r → is_Some (arrays s !! r);
  queues_off_stored : ∀ n r, pendingOff s !! n = Some r → is_Some (arrays s !! r);
  queues_on_inj : ∀ n1 n2 r,
    pendingOn s !! n1 = Some r → pendingOn s !! n2 = Some r → n1 = n2;
  queues_off_inj : ∀ n1 n2 r,
    pendingOff s !! n1 = Some r → pendingOff s !! n2 = Some r → n1 = n2;
  queues_disjoint : ∀ n1 n2 r,
    pendingOn s !! n1 = Some r → pendingOff s !! n2 = Some r → False
}.

(** No entry of the subscription tables is under a name inherited from
    [Object.prototype]: the code only writes them where the read of the
    name was falsy. *)
Definition own_names_ok (s : State) : Prop :=
  ∀ n, inherited n = true →
       handlers s !! n = None ∧ pendingOn s !! n = None ∧ pendingOff s !! n = None.

(** The input calls a function that holds the array [pending]. *)
Definition holds (pending : Ref) (i : Input) : bool :=
  match i with
  | Answer (SubscribeAck _ p) _ _ | Answer (UnsubscribeAck _ p) _ _ =>
      bool_decide (p = pending)
  | _ => false
  end.

(** The user functions an input passes in, directly or inside the function
    the transport calls back. *)
Definition functions_of (i : Input) : list Fn :=
  match i with
  | CallRoute _ _ _ callback | CallPing callback => given [callback]
  | CallOn _ handler callback | CallOff _ handler callback =>
      handler :: given [callback]
  | Answer (RouteReply callback) _ _ => [callback]
  | Answer (UserCallback callback) _ _ => given [callback]
  | _ => []
  end.

(** The effect is a call of the user function [f]. *)
Definition invokes (f : Fn) (e : Effect) : bool :=
  match e with
  | Invoke g _ | InvokeMeta g _ => bool_decide (g = f)
  | _ => false
  end.

(** [f] is in no handler list and in no array of the state. *)
Definition unused (f : Fn) (s : State) : Prop :=
  map_Forall (λ _ l, f ∉ l) (handlers s) ∧ map_Forall (λ _ l, f ∉ l) (arrays s).

(** [f] is in no handler list and in no array other than [pending]. *)
Definition apart (f : Fn) (pending : Ref) (s : State) : Prop :=
  (∀ n l, handlers s !! n = Some l → f ∉ l) ∧
  (∀ r l, arrays s !! r = Some l → r ≠ pending → f ∉ l).

(** ** Running a function body symbolically *)

Ltac exec :=
  cbv beta iota delta
    [mbind mret M_bind M_ret bind ret gets modify tell throw deref call emitEvent
     remote newObject newArray push readArray pushIfGiven pushOnInherited
     substitute
     state_of log_of trace_of completion_of fst snd].

(** * Properties *)

(** ** Composition rules for [respects] *)

Section Respects.
Context (P : State → Prop) (Q : Effect → Prop).

Lemma respects_ret {A} (a : A) : respects P Q (mret a).
Proof. intros s HP. split; [exact HP | constructor]. Qed.

Lemma respects_bind {A B} (m : M A) (k : A → M B) :
  respects P Q m → (∀ a, respects P Q (k a)) → respects P Q (m ≫= k).
Proof.
  intros Hm Hk s HP. specialize (Hm s HP).
  unfold mbind, M_bind, bind, state_of, trace_of in *.
  destruct (m s) as [[s1 t1] [a|e]]; simpl in *; [|exact Hm].
  destruct Hm as [HP1 Ht1]. specialize (Hk a s1 HP1).
  destruct (k a s1) as [[s2 t2] c]; simpl in *.
  destruct Hk as [HP2 Ht2]. split; [exact HP2|].
  rewrite fmap_app. apply Forall_app. split; assumption.
Qed.

Lemma respects_gets {A} (f : State → A) : respects P Q (gets f).
Proof. intros s HP. split; [exact HP | constructor]. Qed.

Lemma respects_throw {A} (e : JsError) : respects P Q (throw (A:=A) e).
Proof. intros s HP. split; [exact HP | constructor]. Qed.

Lemma respects_deref {A} (x : option A) : respects P Q (deref x).
Proof. destruct x; [apply respects_ret | apply respects_throw]. Qed.

Lemma respects_tell (e : Effect) : Q e → respects P Q (tell e).
Proof. intros HQ s HP. split; [exact HP|]. repeat constructor. exact HQ. Qed.

Lemma respects_modify (f : State → State) :
  (∀ s, P s → P (f s)) → respects P Q (modify f).
Proof. intros Hf s HP. split; [apply Hf, HP | constructor]. Qed.

Lemma respects_forEach {A} (l : list A) (body : A → M unit) :
  (∀ x, respects P Q (body x)) → respects P Q (forEach l body).
Proof.
  intros Hbody. induction l as [|x l IH]; simpl.
  - apply respects_ret.
  - apply respects_bind; [apply Hbody | intros _; exact IH].
Qed.

Lemma respects_substitute {A B} (make : A → M B) (token : option A) :
  (∀ t, respects P Q (make t)) → respects P Q (substitute make token).
Proof.
  intros Hmake. destruct token as [t|]; simpl; [|apply respects_ret].
  apply respects_bind; [apply Hmake | intros b; apply respects_ret].
Qed.
End Respects.


Ltac respects_step :=
  first
    [ apply respects_ret | apply respects_gets | apply respects_throw
    | apply respects_deref
    | apply respects_bind; [|intros ?]
    | apply respects_forEach; intros ?
    | apply respects_substitute; intros ?
    | apply respects_tell
    | apply respects_modify; intros ? ?
    | match goal with
      | |- respects _ _ (match ?x with _ => _ end) => destruct x
      end ].

Ltac unfold_program :=
  unfold handle, answer, routed, route, ping, emit, onExit, onData, onEnd,
    onClose, onChange, onReady, onEvent, onDrain, drainStream, streamWrite,
    streamEnd, streamDestroy, processKill, watcherClose, apiCall, makeProcessProxy,
    makeStreamProxy, makeWatcherProxy, makeApiProxy, emitEvent, remote, newObject.

Ltac unfold_subscriptions :=
  unfold on, off, subscribed, unsubscribed, pushIfGiven, pushOnInherited, push,
    newArray, readArray, call.

Ltac program_respects :=
  unfold_program; unfold_subscriptions; repeat respects_step; try exact I.

(** ** Inputs that do not run the subscription manager *)

Lemma same_subscriptions_refl (s : State) : same_subscriptions s s.
Proof. repeat split; lia. Qed.

Lemma is_wire_other_method (method m : string) (name : Key) (args : list Val)
    (k : option Closure) :
  m ≠ method → is_wire method name (Remote m args k) = false.
Proof.
  intros Hm. destruct args as [|[] []]; try reflexivity.
  simpl. apply bool_decide_eq_false. intros [? _]. contradiction.
Qed.

Lemma foreign_input_respects (s0 : State) (i : Input) :
  subscription_input i = false →
  respects (same_subscriptions s0) no_subscription (handle i).
Proof.
  intros Hi.
  destruct i as [ | | | | | | | | | | | [ | | | ] | | | | | | | | ];
    try discriminate Hi; unfold_program; repeat respects_step.
  all: try (intros ?; split; reflexivity).
  all: try (match goal with H : same_subscriptions _ _ |- _ =>
              destruct H as (? & ? & ? & ? & ?) end;
            repeat split; simpl; try assumption; lia).
  - intros ?. destruct path; split; reflexivity.
  - intros ?. split; apply is_wire_other_method; discriminate.
Qed.

(** ** The subscription manager, case by case *)

Lemma forEach_tell {A} (l : list A) (f : A → Effect) (s : State) :
  forEach l (λ x, tell (f x)) s = (s, map (λ x, (s, f x)) l, Normal tt).
Proof.
  induction l as [|x l IH]; [reflexivity|].
  simpl. unfold mbind, M_bind, bind. simpl. rewrite IH. reflexivity.
Qed.

Lemma get_own {A} (object : gmap string A) (name : Key) (a : A) :
  object !! name = Some a → get object name = Own a.
Proof. unfold get. intros ->. reflexivity. Qed.

Lemma get_missing {A} (object : gmap string A) (name : Key) :
  object !! name = None → inherited name = false → get object name = Missing.
Proof.
  unfold get, inherited. intros ->. destruct (prototype_length name); done.
Qed.

Lemma get_Own_inv {A} (object : gmap string A) (name : Key) (a : A) :
  get object name = Own a → object !! name = Some a.
Proof.
  unfold get. destruct (object !! name); [congruence|].
  destruct (prototype_length name); discriminate.
Qed.

Lemma get_Inherited_inv {A} (object : gmap string A) (name : Key) (length : option nat) :
  get object name = Inherited length → object !! name = None ∧ inherited name = true.
Proof.
  unfold get, inherited. destruct (object !! name); [discriminate|].
  destruct (prototype_length name); [done | discriminate].
Qed.

Lemma get_Missing_inv {A} (object : gmap string A) (name : Key) :
  get object name = Missing → object !! name = None ∧ inherited name = false.
Proof.
  unfold get, inherited. destruct (object !! name); [discriminate|].
  destruct (prototype_length name); [discriminate | done].
Qed.

Lemma on_unfold (s : State) (name : Key) (handler : Fn) (callback : option Fn) :
  on name handler callback s =
    match get (handlers s) name with
    | Own registered =>
        let s1 := set_handlers <[name := registered ++ [handler]]> s in
        match get (pendingOn s) name with
        | Own pending => (queued pending callback s1, [], Normal tt)
        | Inherited _ => pushOnInherited callback s1
        | Missing => call callback [] s1
        end
    | Inherited _ => (s, [], Throw TypeError)
    | Missing =>
        let s' :=
          queued (next s) callback
            (set_pendingOn <[name := next s]>
               (set_arrays <[next s := []]>
                  (set_next S (set_handlers <[name := [handler]]> s)))) in
        (s', [(s', Remote "subscribe" [VStr name]
                     (Some (SubscribeAck name (next s))))], Normal tt)
    end.
Proof.
  unfold on. exec.
  destruct (get (handlers s) name) as [registered| |]; exec; simpl.
  - destruct (get (pendingOn s) name) as [pending| |];
      destruct callback; reflexivity.
  - reflexivity.
  - destruct callback; reflexivity.
Qed.

Lemma off_unfold (s : State) (name : Key) (handler : Fn) (callback : option Fn) :
  off name handler callback s =
    match get (pendingOff s) name with
    | Own pending => (queued pending callback s, [], Normal tt)
    | Inherited _ => pushOnInherited callback s
    | Missing =>
        match get (handlers s) name with
        | Missing => call callback [] s
        | Own _ | Inherited _ =>
            let s' :=
              queued (next s) callback
                (set_pendingOff <[name := next s]>
                   (set_arrays <[next s := []]> (set_next S s))) in
            (s', [(s', Remote "unsubscribe" [VStr name]
                         (Some (UnsubscribeAck name (next s))))], Normal tt)
        end
    end.
Proof.
  unfold off. exec.
  destruct (get (pendingOff s) name) as [pending| |]; exec.
  - destruct callback; reflexivity.
  - destruct callback; reflexivity.
  - destruct (get (handlers s) name) as [registered| |]; exec; simpl;
      destruct callback; reflexivity.
Qed.

Lemma subscribed_unfold (s : State) (name : Key) (pending : Ref) (err : Val) :
  subscribed name pending err s =
    (set_pendingOn (delete name) s,
     map (λ callback, (s, Invoke callback [err])) (default [] (arrays s !! pending)),
     Normal tt).
Proof.
  unfold subscribed, mbind, M_bind, bind, readArray, gets, modify.
  rewrite forEach_tell. simpl. rewrite app_nil_r. reflexivity.
Qed.

Lemma unsubscribed_unfold (s : State) (name : Key) (pending : Ref) (err : Val) :
  unsubscribed name pending err s =
    (set_pendingOff (delete name) (set_handlers (delete name) s),
     map (λ callback, (set_handlers (delete name) s, Invoke callback [err]))
       (default [] (arrays s !! pending)),
     Normal tt).
Proof.
  unfold unsubscribed, mbind, M_bind, bind, readArray, gets, modify.
  rewrite forEach_tell. simpl. rewrite app_nil_r. reflexivity.
Qed.

(** ** The invariant of the reachable states *)

Lemma streams_ok_mono (m : gmap string StreamProxy) (n n' : nat) :
  n ≤ n' → streams_ok m n → streams_ok m n'.
Proof.
  intros Hle [Hkey Hlt Hinj]. split; [exact Hkey | | exact Hinj].
  intros id st Hst. specialize (Hlt id st Hst). lia.
Qed.

Lemma streams_ok_delete (m : gmap string StreamProxy) (n : nat) (id : Key) :
  streams_ok m n → streams_ok (delete id m) n.
Proof.
  intros [Hkey Hlt Hinj]. split.
  - intros k st [_ Hst]%lookup_delete_Some. eauto.
  - intros k st [_ Hst]%lookup_delete_Some. eauto.
  - intros k1 k2 st1 st2 [_ H1]%lookup_delete_Some [_ H2]%lookup_delete_Some.
    eauto.
Qed.

Lemma streams_ok_insert (m : gmap string StreamProxy) (n : nat) (st : StreamProxy) :
  s_obj st = n → streams_ok m n → streams_ok (<[s_id st := st]> m) (S n).
Proof.
  intros Hobj [Hkey Hlt Hinj]. split.
  - intros k st' [[<- <-]|[_ Hst]]%lookup_insert_Some; eauto.
  - intros k st' [[<- <-]|[_ Hst]]%lookup_insert_Some; [lia|].
    specialize (Hlt k st' Hst). lia.
  - intros k1 k2 st1 st2 [[<- <-]|[Hne1 H1]]%lookup_insert_Some
      [[<- <-]|[Hne2 H2]]%lookup_insert_Some Heq; eauto.
    + specialize (Hlt k2 st2 H2). lia.
    + specialize (Hlt k1 st1 H1). lia.
Qed.

Lemma refs_below_mono (m : gmap string nat) (n n' : nat) :
  n ≤ n' → refs_below m n → refs_below m n'.
Proof. intros Hle Hm k r Hr. specialize (Hm k r Hr). lia. Qed.

Lemma refs_below_delete (m : gmap string nat) (n : nat) (k : Key) :
  refs_below m n → refs_below (delete k m) n.
Proof. intros Hm k' r [_ Hr]%lookup_delete_Some. eauto. Qed.

Lemma refs_below_insert (m : gmap string nat) (n : nat) (k : Key) (r : Ref) :
  r < n → refs_below m n → refs_below (<[k := r]> m) n.
Proof. intros Hr Hm k' r' [[_ <-]|[_ Hr']]%lookup_insert_Some; eauto. Qed.

Lemma wf_init : wf init.
Proof.
  split; [split|..]; simpl; unfold refs_below; intros; simplify_map_eq.
Qed.

Lemma wf_queued (pending : Ref) (callback : option Fn) (s : State) :
  wf s → wf (queued pending callback s).
Proof. intros [? ? ?]. destruct callback; split; assumption. Qed.

Lemma makeStreamProxy_respects_wf (Q : Effect → Prop) (token : StreamToken) :
  respects wf Q (makeStreamProxy token).
Proof.
  intros s [Hst Hon Hoff]. split; [|constructor].
  split; simpl.
  - apply (streams_ok_insert _ _
             {| s_obj := next s; s_id := t_id token;
                s_readable := default VUndefined (t_readable token);
                s_writable := default VUndefined (t_writable token) |});
      [reflexivity | exact Hst].
  - eapply refs_below_mono; [|exact Hon]. lia.
  - eapply refs_below_mono; [|exact Hoff]. lia.
Qed.

Lemma wf_set_next (s : State) : wf s → wf (set_next S s).
Proof.
  intros [Hst Hon Hoff]. split; simpl.
  - eapply streams_ok_mono; [|exact Hst]. lia.
  - eapply refs_below_mono; [|exact Hon]. lia.
  - eapply refs_below_mono; [|exact Hoff]. lia.
Qed.

Lemma wf_delete_stream (id : Key) (s : State) :
  wf s → wf (set_proxyStreams (delete id) s).
Proof.
  intros [Hst Hon Hoff]. split; simpl; try assumption.
  apply streams_ok_delete, Hst.
Qed.

Lemma on_respects_wf (name : Key) (handler : Fn) (callback : option Fn) :
  respects wf (λ _, True) (on name handler callback).
Proof.
  intros s Hwf. split; [|apply Forall_forall; done].
  rewrite on_unfold.
  destruct (get (handlers s) name) as [registered| |]; [| exact Hwf |].
  - assert (wf (set_handlers <[name := registered ++ [handler]]> s)) as Hwf1
      by (destruct Hwf; split; assumption).
    destruct (get (pendingOn s) name) as [pending| |]; simpl.
    + apply wf_queued, Hwf1.
    + destruct callback; exact Hwf1.
    + destruct callback; exact Hwf1.
  - simpl. unfold state_of; simpl. apply wf_queued.
    destruct Hwf as [Hst Hon Hoff]. split; simpl.
    + eapply streams_ok_mono; [|exact Hst]. lia.
    + apply refs_below_insert; [lia|].
      eapply refs_below_mono; [|exact Hon]. lia.
    + eapply refs_below_mono; [|exact Hoff]. lia.
Qed.

Lemma off_respects_wf (name : Key) (handler : Fn) (callback : option Fn) :
  respects wf (λ _, True) (off name handler callback).
Proof.
  intros s Hwf. split; [|apply Forall_forall; done].
  rewrite off_unfold.
  assert (wf (queued (next s) callback
                (set_pendingOff <[name := next s]>
                   (set_arrays <[next s := []]> (set_next S s))))) as Hfresh.
  { apply wf_queued. destruct Hwf as [Hst Hon Hoff]. split; simpl.
    - eapply streams_ok_mono; [|exact Hst]. lia.
    - eapply refs_below_mono; [|exact Hon]. lia.
    - apply refs_below_insert; [lia|].
      eapply refs_below_mono; [|exact Hoff]. lia. }
  destruct (get (pendingOff s) name) as [pending| |].
  - apply wf_queued, Hwf.
  - destruct callback; exact Hwf.
  - destruct (get (handlers s) name) as [registered| |];
      [exact Hfresh | exact Hfresh | destruct callback; exact Hwf].
Qed.

Lemma handle_respects_wf (i : Input) : respects wf (λ _, True) (handle i).
Proof.
  destruct i as [ | | | | | | | | | | | [ | | | ] | | | | | | | | ];
    try apply on_respects_wf; try apply off_respects_wf.
  all: try (intros s Hwf; split; [|apply Forall_forall; done];
            simpl; first [rewrite subscribed_unfold | rewrite unsubscribed_unfold];
            destruct Hwf as [Hst Hon Hoff]; split; simpl; try assumption;
            apply refs_below_delete; assumption).
  all: unfold handle, answer, routed, route, ping, emit, onExit, onData,
         onEnd, onClose, onChange, onReady, onEvent, onDrain, drainStream, streamWrite,
         streamEnd, streamDestroy, processKill, watcherClose, apiCall,
         makeProcessProxy, makeWatcherProxy, makeApiProxy, emitEvent, remote,
         newObject.
  all: repeat first [apply makeStreamProxy_respects_wf | respects_step].
  all: try exact I.
  all: try (apply wf_set_next; assumption).
  all: try (apply wf_delete_stream; assumption).
  all: try (match goal with H : wf _ |- _ => destruct H end; split; assumption).
Qed.

Lemma run_wf (inputs : list Input) (s : State) : wf s → wf (run s inputs).1.
Proof.
  revert s. induction inputs as [|i rest IH]; intros s Hwf; [exact Hwf|].
  simpl. destruct (handle_respects_wf i s Hwf) as [Hwf' _].
  specialize (IH _ Hwf').
  destruct (run (state_of (handle i s)) rest) as [s' turns]. exact IH.
Qed.

Lemma reachable_wf (s : State) : reachable s → wf s.
Proof. intros [inputs <-]. apply run_wf, wf_init. Qed.

(** ** What an input leaves alone in the subscription tables *)

Ltac destruct_get object name :=
  let H := fresh "Hget" in
  destruct (get object name) as [?own|?length|] eqn:H;
  [ apply get_Own_inv in H
  | apply get_Inherited_inv in H as [? ?]
  | apply get_Missing_inv in H as [? ?] ].

Ltac subscription_cases i s :=
  let Hi := fresh "Hi" in
  destruct (subscription_input i) eqn:Hi;
  [ destruct i as [ | | |?n ?h ?cb|?n ?h ?cb| | | | | | |[?n ?p|?n ?p| | ] | | | | | | | | ];
    try discriminate Hi; clear Hi; cbn [handle answer];
    [ rewrite on_unfold;
      destruct_get (handlers s) n;
      [destruct_get (pendingOn s) n| |];
      destruct cb as [?f|]
    | rewrite off_unfold;
      destruct_get (pendingOff s) n;
      [| |destruct_get (handlers s) n];
      destruct cb as [?f|]
    | rewrite subscribed_unfold
    | rewrite unsubscribed_unfold ]
  | let H := fresh "Hsame" in
    let Ht := fresh "Htrace" in
    destruct (foreign_input_respects s i Hi s (same_subscriptions_refl s))
      as [H Ht];
    destruct H as (? & ? & ? & ? & ?) ].

Lemma handle_frame (s : State) (i : Input) (k : Key) :
  (registration k i = None → answers_unsubscribe k i = false →
     handlers (state_of (handle i s)) !! k = handlers s !! k) ∧
  (answers_unsubscribe k i = false → is_Some (handlers s !! k) →
     is_Some (handlers (state_of (handle i s)) !! k)) ∧
  (registration k i = None → answers_subscribe k i = false →
     pendingOn (state_of (handle i s)) !! k = pendingOn s !! k) ∧
  (deregistration k i = None → answers_unsubscribe k i = false →
     pendingOff (state_of (handle i s)) !! k = pendingOff s !! k) ∧
  (registration k i = None →
     Forall (λ e, is_wire "subscribe" k e = false) (trace_of (handle i s))) ∧
  (deregistration k i = None →
     Forall (λ e, is_wire "unsubscribe" k e = false) (trace_of (handle i s))).
Proof.
  subscription_cases i s; cbn [registration deregistration answers_subscribe
    answers_unsubscribe state_of trace_of fst snd fmap list_fmap].
  all: simpl; repeat split; intros; repeat case_decide; simplify_eq.
  all: try (rewrite ?lookup_insert_ne, ?lookup_delete_ne by congruence; done).
  all: try (repeat constructor; apply is_wire_other_method; discriminate).
  all: try (repeat constructor; apply bool_decide_eq_false; intros [_ ?]; done).
  all: try (rewrite lookup_insert; case_decide; eauto; done).
  all: try congruence.
  all: try (eapply Forall_impl; [exact Htrace|]; intros e He; apply He).
  all: rewrite Forall_fmap, Forall_map; apply Forall_forall; done.
Qed.

Lemma handle_frame_refs (s : State) (i : Input) (r : Ref) :
  r < next s →
  next s ≤ next (state_of (handle i s)) ∧
  (∀ n, pendingOn (state_of (handle i s)) !! n = Some r → pendingOn s !! n = Some r) ∧
  (∀ n, pendingOff (state_of (handle i s)) !! n = Some r → pendingOff s !! n = Some r) ∧
  ((∀ n, registration n i ≠ None → pendingOn s !! n ≠ Some r) →
   (∀ n, deregistration n i ≠ None → pendingOff s !! n ≠ Some r) →
   arrays (state_of (handle i s)) !! r = arrays s !! r).
Proof.
  intros Hr.
  subscription_cases i s; cbn [registration deregistration state_of fst snd].
  all: try (match goal with H : arrays (state_of _) = _ |- _ => idtac end;
            repeat split; [lia|congruence..]).
  all: unfold call, tell, throw, state_of; simpl; repeat split; try lia;
       try congruence.
  all: try (intros n0 [[_ ?]|[_ ?]]%lookup_insert_Some; [lia | done]).
  all: try (intros n0 [_ ?]%lookup_delete_Some; done).
  all: intros Hon Hoff.
  all: rewrite ?lookup_insert_ne by lia; try done.
  all: rewrite lookup_insert_ne; [done|]; intros ->.
  all: first
         [ solve [eapply (Hon n); [rewrite decide_True by done; done | done]]
         | solve [eapply (Hoff n); [rewrite decide_True by done; done | done]] ].
Qed.


(** ** Waiting for the acknowledgement of a subscribe *)

Lemma queued_fields (pending : Ref) (callback : option Fn) (s : State) :
  handlers (queued pending callback s) = handlers s ∧
  pendingOn (queued pending callback s) = pendingOn s ∧
  pendingOff (queued pending callback s) = pendingOff s ∧
  next (queued pending callback s) = next s ∧
  (∀ r, r ≠ pending → arrays (queued pending callback s) !! r = arrays s !! r) ∧
  arrays (queued pending callback s) !! pending =
    match callback with
    | Some f => Some (default [] (arrays s !! pending) ++ [f])
    | None => arrays s !! pending
    end.
Proof.
  destruct callback as [f|]; simpl; repeat split; try done.
  - intros r Hr. apply lookup_insert_ne. done.
  - apply lookup_insert_eq.
Qed.

Lemma registration_Some (name : Key) (i : Input) (handler : Fn) (callback : option Fn) :
  registration name i = Some (handler, callback) → i = CallOn name handler callback.
Proof.
  destruct i; try discriminate. simpl. case_decide; [|discriminate].
  intros [= <- <-]. subst. reflexivity.
Qed.

Lemma deregistration_Some (name : Key) (i : Input) (callback : option Fn) :
  deregistration name i = Some callback → ∃ handler, i = CallOff name handler callback.
Proof.
  destruct i; try discriminate. simpl. case_decide; [|discriminate].
  intros [= <-]. subst. eauto.
Qed.

Lemma wire_calls_none (method : string) (name : Key) (trace : list Effect) :
  Forall (λ e, is_wire method name e = false) trace →
  wire_calls method name trace = [].
Proof.
  unfold wire_calls. induction 1 as [|e l He _ IH]; [reflexivity|].
  rewrite filter_cons_False by congruence. exact IH.
Qed.

Lemma wire_calls_app (method : string) (name : Key) (t1 t2 : list Effect) :
  wire_calls method name (t1 ++ t2) =
  wire_calls method name t1 ++ wire_calls method name t2.
Proof. apply filter_app. Qed.

Lemma unregistered_other (s : State) (i : Input) (name : Key) :
  wf s → handlers s !! name = None →
  registration name i = None → answers_unsubscribe name i = false →
  wf (state_of (handle i s)) ∧
  handlers (state_of (handle i s)) !! name = None ∧
  wire_calls "subscribe" name (trace_of (handle i s)) = [].
Proof.
  intros Hwf Hh Hreg Hunsub.
  destruct (handle_frame s i name) as (Fh & _ & _ & _ & Fsub & _).
  split; [apply handle_respects_wf, Hwf|].
  split; [rewrite Fh; assumption | apply wire_calls_none; auto].
Qed.

Lemma subscribing_first (s : State) (name : Key) (handler : Fn) (callback : option Fn) :
  wf s → inherited name = false → handlers s !! name = None →
  subscribing name (next s) [handler] (given [callback])
    (state_of (on name handler callback s)) ∧
  trace_of (on name handler callback s) =
    [Remote "subscribe" [VStr name] (Some (SubscribeAck name (next s)))].
Proof.
  intros Hwf Hname Hh.
  destruct (on_respects_wf name handler callback s Hwf) as [Hwf' _].
  rewrite on_unfold in *. rewrite (get_missing _ _ Hh Hname) in *.
  split; [|reflexivity].
  unfold state_of in *; cbn [fst] in *.
  destruct Hwf as [_ Hon Hoff].
  destruct (queued_fields (next s) callback
              (set_pendingOn <[name := next s]>
                 (set_arrays <[next s := []]>
                    (set_next S (set_handlers <[name := [handler]]> s)))))
    as (Eh & Eon & Eoff & Enext & _ & Earr).
  split; rewrite ?Eh, ?Eon, ?Eoff, ?Enext, ?Earr; simpl.
  - exact Hwf'.
  - apply lookup_insert_eq.
  - apply lookup_insert_eq.
  - rewrite lookup_insert_eq. destruct callback; reflexivity.
  - lia.
  - intros n [[? _]|[_ Hn]]%lookup_insert_Some; [done|].
    specialize (Hon n _ Hn). lia.
  - intros n Hn. specialize (Hoff n _ Hn). lia.
Qed.

Lemma subscribing_on (s : State) (name : Key) (pending : Ref)
    (registered callbacks : list Fn) (handler : Fn) (callback : option Fn) :
  subscribing name pending registered callbacks s →
  subscribing name pending (registered ++ [handler]) (callbacks ++ given [callback])
    (state_of (on name handler callback s)) ∧
  trace_of (on name handler callback s) = [].
Proof.
  intros [Hwf Hh Hp Ha Hlt Hon Hoff].
  destruct (on_respects_wf name handler callback s Hwf) as [Hwf' _].
  rewrite on_unfold in *. rewrite (get_own _ _ _ Hh), (get_own _ _ _ Hp) in *.
  split; [|reflexivity].
  unfold state_of in *; cbn [fst] in *.
  destruct (queued_fields pending callback
              (set_handlers <[name := registered ++ [handler]]> s))
    as (Eh & Eon & Eoff & Enext & _ & Earr).
  split; rewrite ?Eh, ?Eon, ?Eoff, ?Enext, ?Earr; simpl; try assumption.
  - apply lookup_insert_eq.
  - rewrite Ha. destruct callback; simpl; [reflexivity|].
    rewrite app_nil_r. reflexivity.
Qed.

Lemma subscribing_other (s : State) (i : Input) (name : Key) (pending : Ref)
    (registered callbacks : list Fn) :
  subscribing name pending registered callbacks s →
  registration name i = None →
  answers_subscribe name i = false →
  answers_unsubscribe name i = false →
  subscribing name pending registered callbacks (state_of (handle i s)) ∧
  wire_calls "subscribe" name (trace_of (handle i s)) = [].
Proof.
  intros [Hwf Hh Hp Ha Hlt Hon Hoff] Hreg Hsub Hunsub.
  destruct (handle_frame s i name) as (Fh & _ & Fon & _ & Fsub & _).
  destruct (handle_frame_refs s i pending Hlt) as (Fnext & Ron & Roff & Farr).
  split; [|apply wire_calls_none; auto].
  split.
  - apply handle_respects_wf, Hwf.
  - rewrite Fh; assumption.
  - rewrite Fon; assumption.
  - rewrite Farr; [assumption| |].
    + intros n Hn Hr. apply Hon in Hr as ->. contradiction.
    + intros n _. apply Hoff.
  - lia.
  - intros n Hn. apply Hon, Ron, Hn.
  - intros n Hn. apply (Hoff n), Roff, Hn.
Qed.

Lemma run_cons (s : State) (i : Input) (rest : list Input) :
  run s (i :: rest) =
    ((run (state_of (handle i s)) rest).1,
     (i, trace_of (handle i s)) :: (run (state_of (handle i s)) rest).2).
Proof. simpl. destruct (run (state_of (handle i s)) rest). reflexivity. Qed.

Lemma effects_cons (i : Input) (trace : list Effect) (turns : list (Input * list Effect)) :
  effects ((i, trace) :: turns) = trace ++ effects turns.
Proof. reflexivity. Qed.

Lemma effects_where_cons {A} (select : Input → option A) (i : Input)
    (trace : list Effect) (turns : list (Input * list Effect)) :
  effects_where select ((i, trace) :: turns) =
    match select i with
    | Some _ => trace ++ effects_where select turns
    | None => effects_where select turns
    end.
Proof. unfold effects_where. simpl. destruct (select i); reflexivity. Qed.

Lemma run_subscribing (name : Key) (pending : Ref) (inputs : list Input) :
  ∀ (s : State) (registered callbacks : list Fn),
    subscribing name pending registered callbacks s →
    Forall (λ i, answers_subscribe name i = false ∧
                 answers_unsubscribe name i = false) inputs →
    subscribing name pending
      (registered ++ (omap (registration name) inputs).*1)
      (callbacks ++ given (omap (registration name) inputs).*2)
      (run s inputs).1 ∧
    wire_calls "subscribe" name (effects (run s inputs).2) = [] ∧
    effects_where (registration name) (run s inputs).2 = [].
Proof.
  induction inputs as [|i rest IH]; intros s registered callbacks Hs Hwin.
  { simpl. rewrite !app_nil_r. done. }
  apply Forall_cons in Hwin as [[Hsub Hunsub] Hrest].
  rewrite run_cons. cbn [fst snd].
  rewrite effects_cons, effects_where_cons, wire_calls_app.
  cbn [omap list_omap].
  destruct (registration name i) as [[handler callback]|] eqn:Hreg.
  - apply registration_Some in Hreg as ->. cbn [handle].
    destruct (subscribing_on s name pending registered callbacks handler callback Hs)
      as [Hs' Htrace].
    destruct (IH _ _ _ Hs' Hrest) as (Hfinal & Hwire & Hturns).
    rewrite Htrace, Hwire, Hturns. split; [|done].
    rewrite !fmap_cons. cbn [fst snd]. unfold given in *. cbn [omap list_omap] in *.
    rewrite <- !(assoc_L (++)) in Hfinal.
    destruct callback; exact Hfinal.
  - destruct (subscribing_other s i name pending registered callbacks Hs Hreg Hsub Hunsub)
      as [Hs' Htrace].
    destruct (IH _ _ _ Hs' Hrest) as (Hfinal & Hwire & Hturns).
    rewrite Htrace, Hwire. done.
Qed.

Lemma run_unregistered (name : Key) (inputs : list Input) :
  ∀ s : State,
    wf s → inherited name = false → handlers s !! name = None →
    Forall (λ i, answers_subscribe name i = false ∧
                 answers_unsubscribe name i = false) inputs →
    omap (registration name) inputs ≠ [] →
    ∃ pending,
      subscribing name pending
        (omap (registration name) inputs).*1
        (given (omap (registration name) inputs).*2)
        (run s inputs).1 ∧
      wire_calls "subscribe" name (effects (run s inputs).2) =
        [Remote "subscribe" [VStr name] (Some (SubscribeAck name pending))] ∧
      effects_where (registration name) (run s inputs).2 =
        [Remote "subscribe" [VStr name] (Some (SubscribeAck name pending))].
Proof.
  induction inputs as [|i rest IH]; intros s Hwf Hname Hh Hwin Hregs; [done|].
  apply Forall_cons in Hwin as [[Hsub Hunsub] Hrest].
  rewrite run_cons. cbn [fst snd].
  rewrite effects_cons, effects_where_cons, wire_calls_app.
  cbn [omap list_omap] in *.
  destruct (registration name i) as [[handler callback]|] eqn:Hreg.
  - apply registration_Some in Hreg as ->. cbn [handle].
    destruct (subscribing_first s name handler callback Hwf Hname Hh) as [Hs' Htrace].
    destruct (run_subscribing name (next s) rest _ _ _ Hs' Hrest)
      as (Hfinal & Hwire & Hturns).
    exists (next s). rewrite Htrace, Hwire, Hturns.
    split; [|split].
    + rewrite !fmap_cons. cbn [fst snd]. unfold given in *.
      cbn [omap list_omap] in *. destruct callback; exact Hfinal.
    + unfold wire_calls. rewrite filter_cons_True; [reflexivity|].
      simpl. apply bool_decide_eq_true. done.
    + reflexivity.
  - destruct (unregistered_other s i name Hwf Hh Hreg Hunsub) as (Hwf' & Hh' & Htrace).
    destruct (IH _ Hwf' Hname Hh' Hrest Hregs) as (pending & Hfinal & Hwire & Hturns).
    exists pending. rewrite Htrace, Hwire. done.
Qed.

(** ** Waiting for the acknowledgement of an unsubscribe *)

Lemma unsubscribing_first (s : State) (name : Key) (handler : Fn) (callback : option Fn) :
  wf s → inherited name = false →
  is_Some (handlers s !! name) → pendingOff s !! name = None →
  unsubscribing name (next s) (given [callback])
    (state_of (off name handler callback s)) ∧
  trace_of (off name handler callback s) =
    [Remote "unsubscribe" [VStr name] (Some (UnsubscribeAck name (next s)))].
Proof.
  intros Hwf Hname [registered Hh] Hp.
  destruct (off_respects_wf name handler callback s Hwf) as [Hwf' _].
  rewrite off_unfold in *.
  rewrite (get_own _ _ _ Hh), (get_missing _ _ Hp Hname) in *.
  split; [|reflexivity].
  unfold state_of in *; cbn [fst] in *.
  destruct Hwf as [_ Hon Hoff].
  destruct (queued_fields (next s) callback
              (set_pendingOff <[name := next s]>
                 (set_arrays <[next s := []]> (set_next S s))))
    as (Eh & Eon & Eoff & Enext & _ & Earr).
  split; rewrite ?Eh, ?Eon, ?Eoff, ?Enext, ?Earr; simpl.
  - exact Hwf'.
  - rewrite Hh. eauto.
  - apply lookup_insert_eq.
  - rewrite lookup_insert_eq. destruct callback; reflexivity.
  - lia.
  - intros n Hn. specialize (Hon n _ Hn). lia.
  - intros n [[? _]|[_ Hn]]%lookup_insert_Some; [done|].
    specialize (Hoff n _ Hn). lia.
Qed.

Lemma unsubscribing_off (s : State) (name : Key) (pending : Ref)
    (callbacks : list Fn) (handler : Fn) (callback : option Fn) :
  unsubscribing name pending callbacks s →
  unsubscribing name pending (callbacks ++ given [callback])
    (state_of (off name handler callback s)) ∧
  trace_of (off name handler callback s) = [].
Proof.
  intros [Hwf Hh Hp Ha Hlt Hon Hoff].
  destruct (off_respects_wf name handler callback s Hwf) as [Hwf' _].
  rewrite off_unfold in *. rewrite (get_own _ _ _ Hp) in *.
  split; [|reflexivity].
  unfold state_of in *; cbn [fst] in *.
  destruct (queued_fields pending callback s)
    as (Eh & Eon & Eoff & Enext & _ & Earr).
  split; rewrite ?Eh, ?Eon, ?Eoff, ?Enext, ?Earr; simpl; try assumption.
  rewrite Ha. destruct callback; simpl; [reflexivity|].
  rewrite app_nil_r. reflexivity.
Qed.

Lemma unsubscribing_other (s : State) (i : Input) (name : Key) (pending : Ref)
    (callbacks : list Fn) :
  unsubscribing name pending callbacks s →
  deregistration name i = None →
  answers_unsubscribe name i = false →
  unsubscribing name pending callbacks (state_of (handle i s)) ∧
  wire_calls "unsubscribe" name (trace_of (handle i s)) = [].
Proof.
  intros [Hwf Hh Hp Ha Hlt Hon Hoff] Hdereg Hunsub.
  destruct (handle_frame s i name) as (_ & Fh & _ & Foff & _ & Funsub).
  destruct (handle_frame_refs s i pending Hlt) as (Fnext & Ron & Roff & Farr).
  split; [|apply wire_calls_none; auto].
  split.
  - apply handle_respects_wf, Hwf.
  - apply Fh; assumption.
  - rewrite Foff; assumption.
  - rewrite Farr; [assumption| |].
    + intros n _. apply Hon.
    + intros n Hn Hr. apply Hoff in Hr as ->. contradiction.
  - lia.
  - intros n Hn. apply (Hon n), Ron, Hn.
  - intros n Hn. apply Hoff, Roff, Hn.
Qed.

Lemma run_unsubscribing (name : Key) (pending : Ref) (inputs : list Input) :
  ∀ (s : State) (callbacks : list Fn),
    unsubscribing name pending callbacks s →
    Forall (λ i, answers_unsubscribe name i = false) inputs →
    unsubscribing name pending
      (callbacks ++ given (omap (deregistration name) inputs))
      (run s inputs).1 ∧
    wire_calls "unsubscribe" name (effects (run s inputs).2) = [] ∧
    effects_where (deregistration name) (run s inputs).2 = [].
Proof.
  induction inputs as [|i rest IH]; intros s callbacks Hs Hwin.
  { simpl. rewrite !app_nil_r. done. }
  apply Forall_cons in Hwin as [Hunsub Hrest].
  rewrite run_cons. cbn [fst snd].
  rewrite effects_cons, effects_where_cons, wire_calls_app.
  cbn [omap list_omap].
  destruct (deregistration name i) as [callback|] eqn:Hdereg.
  - apply deregistration_Some in Hdereg as [handler ->]. cbn [handle].
    destruct (unsubscribing_off s name pending callbacks handler callback Hs)
      as [Hs' Htrace].
    destruct (IH _ _ Hs' Hrest) as (Hfinal & Hwire & Hturns).
    rewrite Htrace, Hwire, Hturns. split; [|done].
    unfold given in *. cbn [omap list_omap] in *.
    rewrite <- !(assoc_L (++)) in Hfinal.
    destruct callback; exact Hfinal.
  - destruct (unsubscribing_other s i name pending callbacks Hs Hdereg Hunsub)
      as [Hs' Htrace].
    destruct (IH _ _ Hs' Hrest) as (Hfinal & Hwire & Hturns).
    rewrite Htrace, Hwire. done.
Qed.

(** ** Inherited names never get an entry in the subscription tables *)

Lemma handle_own_names_ok (s : State) (i : Input) :
  own_names_ok s → own_names_ok (state_of (handle i s)).
Proof.
  intros Hok k Hk. destruct (Hok k Hk) as (Hh & Hon & Hoff).
  subscription_cases i s.
  all: try (match goal with H : arrays (state_of _) = _ |- _ => idtac end;
            repeat split; congruence).
  all: unfold state_of, call, tell, throw, pushOnInherited; simpl.
  all: repeat split; try assumption.
  all: rewrite ?lookup_delete, ?lookup_insert; repeat case_decide; subst;
       try done; congruence.
Qed.

Lemma reachable_own_names_ok (s : State) : reachable s → own_names_ok s.
Proof.
  intros [inputs <-].
  assert (own_names_ok init) as Hinit by (intros k _; done).
  revert Hinit. generalize init.
  induction inputs as [|i rest IH]; intros s Hs; [exact Hs|].
  rewrite run_cons. apply IH, handle_own_names_ok, Hs.
Qed.

Lemma own_entry_not_inherited (s : State) (name : Key) :
  reachable s → is_Some (handlers s !! name) → inherited name = false.
Proof.
  intros Hok%reachable_own_names_ok [l Hl].
  destruct (inherited name) eqn:Hname; [|reflexivity].
  destruct (Hok name Hname) as (Hh & _). congruence.
Qed.

(** ** Inbound notifications for unknown identifiers *)

(** C2 (as amended): a data notification for an id with no stream proxy,
    and an exit notification for a pid with no process proxy, each end in a
    [TypeError] raised by the handler itself, before any event is emitted
    and with the whole state, so all four registries, left as it was. *)
Theorem unknown_id_on_data_or_exit_throws (s : State) (id pid : Key)
    (chunk code signal : Val) :
  (proxyStreams s !! id = None →
     onData id chunk s = (s, [], Throw TypeError)) ∧
  (proxyProcesses s !! pid = None →
     onExit pid code signal s = (s, [], Throw TypeError)).
Proof.
  split; intros H.
  - unfold onData. exec. rewrite H. reflexivity.
  - unfold onExit. exec. rewrite H. reflexivity.
Qed.

Lemma unknown_id_on_data_or_exit_throws_at_init :
  proxyStreams init !! "1" = None ∧
  onData "1" (VStr "chunk") init = (init, [], Throw TypeError) ∧
  proxyProcesses init !! "7" = None ∧
  onExit "7" (VNum 0) VNull init = (init, [], Throw TypeError).
Proof.
  destruct (unknown_id_on_data_or_exit_throws init "1" "7" (VStr "chunk") (VNum 0) VNull)
    as [Hdata Hexit].
  split; [reflexivity|]. split; [apply Hdata; reflexivity|].
  split; [reflexivity|]. apply Hexit; reflexivity.
Defined.

(** C2 (as stated) fails: in the initial state no stream has id "1" and no
    process has pid "7", yet handling the data notification and handling the
    exit notification both raise an exception. *)
Lemma data_and_exit_for_unknown_id_raise :
  proxyStreams init !! "1" = None ∧
  proxyProcesses init !! "7" = None ∧
  completion_of (handle (Data "1" (VStr "chunk")) init) ≠ Normal tt ∧
  completion_of (handle (Exit "7" (VNum 0) VNull) init) ≠ Normal tt.
Proof. repeat split; vm_compute; discriminate. Qed.

(** C10 (the code, with the inputs where it departs from the claim): for
    an id absent from the registry, [onEnd] raises a [TypeError] with the
    state unchanged.  [onClose], [onChange] and [onReady] return without
    effect and leave the state unchanged when the absent key is not a name
    inherited from [Object.prototype]; when it is one (such as
    "constructor"), their test for absence lets the inherited value through
    and they raise a [TypeError] at [emit], as [onEnd] does. *)
Theorem absent_id_on_end_close_change_ready (s : State) (id : Key)
    (event filename : Val) :
  (proxyStreams s !! id = None →
     onEnd id s = (s, [], Throw TypeError) ∧
     onClose id s =
       (s, [], if inherited id then Throw TypeError else Normal tt)) ∧
  (proxyWatchers s !! id = None →
     onChange id event filename s =
       (s, [], if inherited id then Throw TypeError else Normal tt)) ∧
  (proxyApis s !! id = None →
     onReady id s =
       (s, [], if inherited id then Throw TypeError else Normal tt)).
Proof.
  split; [intros H; split | split; intros H].
  - unfold onEnd. exec. rewrite H. reflexivity.
  - unfold onClose, get, inherited. exec. rewrite H.
    destruct (prototype_length id); reflexivity.
  - unfold onChange, get, inherited. exec. rewrite H.
    destruct (prototype_length id); reflexivity.
  - unfold onReady, get, inherited. exec. rewrite H.
    destruct (prototype_length id); reflexivity.
Qed.

Lemma absent_id_on_end_close_change_ready_constructor :
  proxyStreams init !! "constructor" = None ∧
  onClose "constructor" init = (init, [], Throw TypeError) ∧
  onChange "constructor" (VStr "change") (VStr "a.txt") init =
    (init, [], Throw TypeError) ∧
  onReady "constructor" init = (init, [], Throw TypeError) ∧
  onClose "1" init = (init, [], Normal tt).
Proof.
  destruct (absent_id_on_end_close_change_ready init "constructor"
              (VStr "change") (VStr "a.txt")) as (Hstream & Hwatcher & Hapi).
  destruct (absent_id_on_end_close_change_ready init "1" VNull VNull)
    as (Hstream1 & _).
  split; [reflexivity|].
  split; [exact (proj2 (Hstream eq_refl))|].
  split; [exact (Hwatcher eq_refl)|].
  split; [exact (Hapi eq_refl) | exact (proj2 (Hstream1 eq_refl))].
Defined.

(** ** Process exit *)

(** C3: for a process proxy registered under [pid], an exit notification
    emits "exit" with (code, signal) on that proxy, in the state where
    nothing has been removed yet, and nothing else; it then leaves a state
    in which the entry for [pid] and the stream entries for the ids of its
    stdout, stderr and stdin are gone.  Nothing is assumed about what the
    stream registry holds under these three ids beforehand. *)
Theorem onExit_removes_process_and_streams (s : State) (pid : Key)
    (process : ProcessProxy) (code signal : Val) :
  proxyProcesses s !! pid = Some process →
  onExit pid code signal s =
    (torn_down pid process s,
     [(s, Emit (p_obj process) "exit" [code; signal])], Normal tt) ∧
  proxyProcesses (torn_down pid process s) !! pid = None ∧
  proxyStreams (torn_down pid process s) !! s_id (p_stdout process) = None ∧
  proxyStreams (torn_down pid process s) !! s_id (p_stderr process) = None ∧
  proxyStreams (torn_down pid process s) !! s_id (p_stdin process) = None ∧
  (∀ id, id ≠ s_id (p_stdout process) → id ≠ s_id (p_stderr process) →
         id ≠ s_id (p_stdin process) →
         proxyStreams (torn_down pid process s) !! id = proxyStreams s !! id) ∧
  (∀ p, p ≠ pid →
        proxyProcesses (torn_down pid process s) !! p = proxyProcesses s !! p).
Proof.
  intros H. split.
  { unfold onExit. exec. rewrite H. reflexivity. }
  unfold torn_down; simpl.
  repeat split; intros; simplify_map_eq; try done.
  all: repeat (rewrite lookup_delete; case_decide; try done).
Qed.

Lemma onExit_removes_process_and_streams_pid7 :
  proxyProcesses (run init spawned).1 !! "7" =
    Some {| p_obj := 0; p_pid := "7";
            p_stdout := {| s_obj := 1; s_id := "1"; s_readable := VBool true;
                           s_writable := VUndefined |};
            p_stderr := {| s_obj := 2; s_id := "2"; s_readable := VBool true;
                           s_writable := VUndefined |};
            p_stdin := stdin7 |} ∧
  trace_of (onExit "7" (VNum 0) VNull (run init spawned).1) =
    [Emit 0 "exit" [VNum 0; VNull]] ∧
  proxyProcesses (state_of (onExit "7" (VNum 0) VNull (run init spawned).1)) !! "7" = None ∧
  proxyStreams (state_of (onExit "7" (VNum 0) VNull (run init spawned).1)) !! "1" = None ∧
  proxyStreams (state_of (onExit "7" (VNum 0) VNull (run init spawned).1)) !! "2" = None ∧
  proxyStreams (state_of (onExit "7" (VNum 0) VNull (run init spawned).1)) !! "3" = None.
Proof.
  assert (proxyProcesses (run init spawned).1 !! "7" =
    Some {| p_obj := 0; p_pid := "7";
            p_stdout := {| s_obj := 1; s_id := "1"; s_readable := VBool true;
                           s_writable := VUndefined |};
            p_stderr := {| s_obj := 2; s_id := "2"; s_readable := VBool true;
                           s_writable := VUndefined |};
            p_stdin := stdin7 |}) as Hpid by (vm_compute; reflexivity).
  split; [exact Hpid|].
  destruct (onExit_removes_process_and_streams _ _ _ (VNum 0) VNull Hpid)
    as (Heq & Hp & H1 & H2 & H3 & _).
  rewrite Heq. unfold trace_of, state_of. cbn [fst snd fmap list_fmap].
  repeat split; assumption.
Defined.

(** ** The facade *)

(** C5: for every operation name, the function [route] hands to the
    transport, when called back with an error, calls the caller's callback
    with that error as its only argument and does nothing else: the state
    is the one it started from, so no proxy was built (no object was
    allocated) and no registry changed. *)
Theorem route_error_goes_to_callback_only (s : State) (name : string)
    (path options : Val) (callback : Fn) (err : Val) (meta : option Meta) :
  truthy err = true →
  route name path options (Some callback) s =
    (s, [(s, Remote name [path; options] (Some (RouteReply callback)))], Normal tt) ∧
  ∀ s', answer (RouteReply callback) err meta s' =
          (s', [(s', Invoke callback [err])], Normal tt).
Proof.
  intros Herr. split; [reflexivity|].
  intros s'. unfold answer, routed. rewrite Herr. reflexivity.
Qed.

Lemma route_error_goes_to_callback_only_readfile :
  truthy (VObject 0) = true ∧
  route "readfile" (VStr "/a") VNull (Some 5) init =
    (init, [(init, Remote "readfile" [VStr "/a"; VNull] (Some (RouteReply 5)))],
     Normal tt) ∧
  answer (RouteReply 5) (VObject 0) None init =
    (init, [(init, Invoke 5 [VObject 0])], Normal tt).
Proof.
  destruct (route_error_goes_to_callback_only init "readfile" (VStr "/a") VNull 5
              (VObject 0) None eq_refl) as [Hcall Hanswer].
  split; [reflexivity|]. split; [exact Hcall | exact (Hanswer init)].
Defined.

(** C6: for every operation name, so for each of [routes], calling the
    function built by [route] without a callback raises an [Error] at once:
    the log is empty, so no remote call was forwarded, and the state is
    unchanged. *)
Theorem route_without_callback_throws (s : State) (name : string)
    (path options : Val) :
  route name path options None s =
    (s, [], Throw (Error ("Forgot to pass in callback for " ++ name)%string)).
Proof. reflexivity. Qed.

(** [ping] is not built by [route]: it passes whatever callback it gets on
    to the transport, checked by nobody. *)
Lemma ping_forwards_any_callback (s : State) (callback : option Fn) :
  ping callback s =
    (s, [(s, Remote "ping" [] (Some (UserCallback callback)))], Normal tt).
Proof. reflexivity. Qed.

(** ** Subscriptions: the immediate paths *)

(** C7 (the code, with the inputs where it departs from the claim): with
    no handler entry and no pending unsubscribe for [name], [off] calls the
    callback at once, with no argument, issues no call to the transport and
    leaves the state unchanged, when [name] is not a name inherited from
    [Object.prototype].  When it is one (such as "toString"), [off] reads
    the inherited value as a pending unsubscribe and raises a [TypeError]
    at [push]: the callback is not called. *)
Theorem off_without_entry (s : State) (name : Key) (handler callback : Fn) :
  handlers s !! name = None →
  pendingOff s !! name = None →
  off name handler (Some callback) s =
    if inherited name
    then (s, [], Throw TypeError)
    else (s, [(s, Invoke callback [])], Normal tt).
Proof.
  intros Hh Hp. rewrite off_unfold. unfold get, inherited. rewrite Hh, Hp.
  destruct (prototype_length name); reflexivity.
Qed.

Lemma off_without_entry_toString :
  handlers init !! "toString" = None ∧
  pendingOff init !! "toString" = None ∧
  off "toString" 1 (Some 2) init = (init, [], Throw TypeError) ∧
  off "change" 1 (Some 2) init = (init, [(init, Invoke 2 [])], Normal tt).
Proof.
  split; [reflexivity|]. split; [reflexivity|].
  split.
  - exact (off_without_entry init "toString" 1 2 eq_refl eq_refl).
  - exact (off_without_entry init "change" 1 2 eq_refl eq_refl).
Defined.

(** C9 (the code, with the inputs where it departs from the claim): what
    [on] and [off] do when the callback is omitted, by what the tables
    read.  With own entries [on] raises a [TypeError] exactly when an entry
    for the name exists and no subscribe is pending (the handler has been
    appended by then), and [off] raises one exactly when no unsubscribe is
    pending and no entry exists; on the queued paths the call returns
    normally, nothing is pushed and no user function is called.  Under a
    name inherited from [Object.prototype] and without own entries it is
    the other way round: [off] returns silently, taking the inherited value
    for a pending unsubscribe, and [on] raises a [TypeError] at
    [handlers[name].push]. *)
Theorem omitted_callback_case_by_case (s : State) (name : Key) (handler : Fn) :
  on name handler None s =
    match get (handlers s) name with
    | Own registered =>
        match get (pendingOn s) name with
        | Own _ | Inherited _ =>
            (set_handlers <[name := registered ++ [handler]]> s, [], Normal tt)
        | Missing =>
            (set_handlers <[name := registered ++ [handler]]> s, [], Throw TypeError)
        end
    | Inherited _ => (s, [], Throw TypeError)
    | Missing =>
        let s' :=
          set_pendingOn <[name := next s]>
            (set_arrays <[next s := []]>
               (set_next S (set_handlers <[name := [handler]]> s))) in
        (s', [(s', Remote "subscribe" [VStr name]
                     (Some (SubscribeAck name (next s))))], Normal tt)
    end ∧
  off name handler None s =
    match get (pendingOff s) name with
    | Own _ | Inherited _ => (s, [], Normal tt)
    | Missing =>
        match get (handlers s) name with
        | Missing => (s, [], Throw TypeError)
        | Own _ | Inherited _ =>
            let s' :=
              set_pendingOff <[name := next s]>
                (set_arrays <[next s := []]> (set_next S s)) in
            (s', [(s', Remote "unsubscribe" [VStr name]
                         (Some (UnsubscribeAck name (next s))))], Normal tt)
        end
    end.
Proof.
  rewrite on_unfold, off_unfold. split.
  - destruct (get (handlers s) name) as [registered| |]; [|reflexivity..].
    destruct (get (pendingOn s) name); reflexivity.
  - destruct (get (pendingOff s) name); [reflexivity..|].
    destruct (get (handlers s) name); reflexivity.
Qed.

Lemma omitted_callback_case_by_case_toString :
  handlers init !! "toString" = None ∧
  pendingOff init !! "toString" = None ∧
  off "toString" 1 None init = (init, [], Normal tt) ∧
  on "toString" 1 None init = (init, [], Throw TypeError) ∧
  off "change" 1 None init = (init, [], Throw TypeError).
Proof.
  destruct (omitted_callback_case_by_case init "toString" 1) as [Hon Hoff].
  destruct (omitted_callback_case_by_case init "change" 1) as [_ Hoff'].
  split; [reflexivity|]. split; [reflexivity|].
  split; [exact Hoff|]. split; [exact Hon | exact Hoff'].
Defined.

(** ** Drain *)

Lemma drainStream_unfold (s : State) (id : Key) (stream : StreamProxy) :
  proxyStreams s !! id = Some stream →
  drainStream id s =
    (s, map (λ st, (s, drain_on st)) (filter writable [stream]), Normal tt).
Proof.
  intros H. unfold drainStream. exec. rewrite H.
  destruct (truthy (s_writable stream)) eqn:Hw.
  - rewrite filter_cons_True by exact Hw. reflexivity.
  - rewrite filter_cons_False by (unfold writable; rewrite Hw; discriminate).
    reflexivity.
Qed.

Lemma drain_loop (s : State) (l : list (string * StreamProxy)) :
  (∀ k v, (k, v) ∈ l → proxyStreams s !! k = Some v) →
  forEach l.*1 drainStream s =
    (s, map (λ st, (s, drain_on st)) (filter writable l.*2), Normal tt).
Proof.
  induction l as [|[k v] l IH]; intros Hl; [reflexivity|].
  rewrite !fmap_cons. cbn [forEach fst snd].
  unfold mbind, M_bind, bind.
  rewrite (drainStream_unfold s k v) by (apply Hl; left).
  rewrite IH by (intros; apply Hl; right; assumption).
  rewrite <- map_app, <- filter_app. reflexivity.
Qed.

Lemma onDrain_unfold (s : State) :
  onDrain s =
    (s, map (λ st, (s, drain_on st))
          (filter writable (map_to_list (proxyStreams s)).*2), Normal tt).
Proof.
  unfold onDrain, mbind, M_bind, bind, gets.
  rewrite drain_loop; [reflexivity|].
  intros k v Hkv. apply elem_of_map_to_list. exact Hkv.
Qed.

Lemma drain_trace (s : State) (e : Effect) :
  e ∈ trace_of (onDrain s) ↔
  ∃ id stream, proxyStreams s !! id = Some stream ∧ writable stream ∧
               e = drain_on stream.
Proof.
  rewrite onDrain_unfold. unfold trace_of. simpl.
  rewrite <- list_fmap_compose. split.
  - intros (stream & -> & [Hw ((id & stream') & -> & Hin)%list_elem_of_fmap]%list_elem_of_filter)%list_elem_of_fmap.
    exists id, stream'. apply elem_of_map_to_list in Hin. done.
  - intros (id & stream & Hin & Hw & ->).
    apply list_elem_of_fmap. exists stream. split; [reflexivity|].
    apply list_elem_of_filter. split; [exact Hw|].
    apply list_elem_of_fmap. exists (id, stream). split; [reflexivity|].
    apply elem_of_map_to_list. exact Hin.
Qed.

Lemma drain_trace_NoDup (s : State) : wf s → NoDup (trace_of (onDrain s)).
Proof.
  intros [[Hkey Hlt Hinj] _ _].
  rewrite onDrain_unfold. unfold trace_of. simpl.
  rewrite <- list_fmap_compose.
  assert (NoDup (map_to_list (proxyStreams s)).*2) as Hvalues.
  { apply NoDup_fmap_2_strong; [|apply NoDup_map_to_list].
    intros [k1 v1] [k2 v2] H1%elem_of_map_to_list H2%elem_of_map_to_list Heq.
    simpl in Heq. subst v2. f_equal. eapply Hinj; eauto. }
  apply NoDup_fmap_2_strong; [|apply NoDup_filter, Hvalues].
  intros v1 v2 [_ ((k1 & v1') & -> & H1%elem_of_map_to_list)%list_elem_of_fmap]%list_elem_of_filter
    [_ ((k2 & v2') & -> & H2%elem_of_map_to_list)%list_elem_of_fmap]%list_elem_of_filter Heq.
  simpl in *. injection Heq as Hobj.
  assert (k1 = k2) as <- by (eapply Hinj; eauto). congruence.
Qed.

Lemma no_drain_once_removed (s s' : State) (id : Key) (stream : StreamProxy) :
  wf s →
  proxyStreams s !! id = Some stream →
  (∀ k st, proxyStreams s' !! k = Some st →
           k ≠ id ∧ proxyStreams s !! k = Some st) →
  drain_on stream ∉ trace_of (onDrain s').
Proof.
  intros [[Hkey Hlt Hinj] _ _] Hid Hsub (k & st & Hk & _ & Heq)%drain_trace.
  destruct (Hsub k st Hk) as [Hne Hk']. apply Hne.
  injection Heq as Hobj. eapply Hinj; eauto.
Qed.

Lemma removes_entry (s : State) (id : Key) (stream : StreamProxy) (i : Input) :
  proxyStreams s !! id = Some stream → removes id i s →
  ∀ k st, proxyStreams (state_of (handle i s)) !! k = Some st →
          k ≠ id ∧ proxyStreams s !! k = Some st.
Proof.
  intros Hid [->|[->|(pid & code & signal & process & -> & Hpid & Hin)]] k st.
  - simpl. unfold onEnd. exec. rewrite Hid. simpl.
    intros [? ?]%lookup_delete_Some. done.
  - simpl. unfold onClose. exec. rewrite (get_own _ _ _ Hid). simpl.
    intros [? ?]%lookup_delete_Some. done.
  - simpl. unfold onExit. exec. rewrite Hpid. simpl.
    intros (H3 & (H2 & (H1 & Hk)%lookup_delete_Some)%lookup_delete_Some)%lookup_delete_Some.
    split; [|exact Hk].
    rewrite !elem_of_cons, elem_of_nil in Hin. intros ->.
    destruct Hin as [->|[->|[->|[]]]]; congruence.
Qed.

(** C8: a drain notification changes nothing and emits "drain" exactly on
    the stream proxies that are in the stream registry when it is processed
    and whose [writable] is truthy: every such proxy gets it, and every
    effect of the listener is such a "drain".  In a reachable state each of
    these proxies gets it once, and a proxy whose entry has been removed by
    an end, a close or its process's exit before the drain gets none. *)
Theorem drain_reaches_registered_writable_streams_only (s : State) :
  state_of (onDrain s) = s ∧
  completion_of (onDrain s) = Normal tt ∧
  (∀ e, e ∈ trace_of (onDrain s) ↔
        ∃ id stream, proxyStreams s !! id = Some stream ∧ writable stream ∧
                     e = drain_on stream) ∧
  (reachable s →
     NoDup (trace_of (onDrain s)) ∧
     ∀ id stream i,
       proxyStreams s !! id = Some stream → removes id i s →
       drain_on stream ∉ trace_of (onDrain (state_of (handle i s)))).
Proof.
  split; [rewrite onDrain_unfold; reflexivity|].
  split; [rewrite onDrain_unfold; reflexivity|].
  split; [apply drain_trace|].
  intros Hwf%reachable_wf. split; [apply drain_trace_NoDup, Hwf|].
  intros id stream i Hid Hi.
  eapply no_drain_once_removed; eauto using removes_entry.
Qed.

Lemma drain_reaches_registered_writable_streams_only_after_spawn :
  reachable (run init spawned).1 ∧
  proxyStreams (run init spawned).1 !! "3" = Some stdin7 ∧
  removes "3" (Exit "7" (VNum 0) VNull) (run init spawned).1 ∧
  drain_on stdin7 ∈ trace_of (onDrain (run init spawned).1) ∧
  drain_on stdin7 ∉
    trace_of (onDrain (state_of (handle (Exit "7" (VNum 0) VNull) (run init spawned).1))).
Proof.
  assert (reachable (run init spawned).1) as Hreach
    by (exists spawned; reflexivity).
  assert (proxyStreams (run init spawned).1 !! "3" = Some stdin7) as Hstdin
    by (vm_compute; reflexivity).
  assert (removes "3" (Exit "7" (VNum 0) VNull) (run init spawned).1) as Hexit.
  { right; right.
    exists "7", (VNum 0), VNull,
      {| p_obj := 0; p_pid := "7";
         p_stdout := {| s_obj := 1; s_id := "1"; s_readable := VBool true;
                        s_writable := VUndefined |};
         p_stderr := {| s_obj := 2; s_id := "2"; s_readable := VBool true;
                        s_writable := VUndefined |};
         p_stdin := stdin7 |}.
    split; [reflexivity|]. split; [vm_compute; reflexivity|].
    simpl. rewrite !elem_of_cons. auto. }
  destruct (drain_reaches_registered_writable_streams_only (run init spawned).1)
    as (_ & _ & Hiff & Hafter).
  destruct (Hafter Hreach) as [_ Hremoved].
  repeat split; try assumption.
  - apply Hiff. exists "3", stdin7. repeat split; assumption.
  - exact (Hremoved "3" stdin7 _ Hstdin Hexit).
Defined.

(** ** Which user functions a turn calls *)

Lemma onEvent_unfold (s : State) (name : Key) (value : Val) :
  onEvent name value s =
    match get (handlers s) name with
    | Own list =>
        (s, map (λ handler, (s, Invoke handler [value])) list, Normal tt)
    | Inherited (Some (S _)) => (s, [], Throw TypeError)
    | Inherited _ | Missing => (s, [], Normal tt)
    end.
Proof.
  unfold onEvent, mbind, M_bind, bind, gets.
  destruct (get (handlers s) name) as [list|[[|n]|]|]; try reflexivity.
  rewrite forEach_tell. reflexivity.
Qed.

Lemma foreign_no_invoke (s : State) (i : Input) (f : Fn) :
  subscription_input i = false →
  (∀ name value, i ≠ Event name value) →
  f ∉ functions_of i →
  Forall (λ e, invokes f e = false) (trace_of (handle i s)).
Proof.
  intros Hi Hevent Hf.
  assert (respects (λ _, True) (λ e, invokes f e = false) (handle i)) as H;
    [|exact (proj2 (H s I))].
  destruct i as [ | | | | | | | | | | | [ | | | ] | | | | | | | | ];
    try discriminate Hi; program_respects.
  all: try reflexivity.
  all: try (exfalso; eapply Hevent; reflexivity).
  all: simpl in *; apply bool_decide_eq_false; intros ->; apply Hf;
       rewrite ?elem_of_cons; auto.
Qed.

Lemma apart_same_tables (f : Fn) (pending : Ref) (s s' : State) :
  handlers s' = handlers s → arrays s' = arrays s →
  apart f pending s → apart f pending s'.
Proof. intros Eh Ea [Hh Ha]. split; rewrite ?Eh, ?Ea; assumption. Qed.

Lemma apart_step (f : Fn) (pending : Ref) (s s' : State) :
  (∀ k l, handlers s' !! k = Some l → handlers s !! k = Some l ∨ f ∉ l) →
  (∀ r l, arrays s' !! r = Some l → r ≠ pending →
          arrays s !! r = Some l ∨ f ∉ l) →
  apart f pending s → apart f pending s'.
Proof.
  intros Hh Ha [Hh0 Ha0]. split.
  - intros k l Hl. destruct (Hh k l Hl); eauto.
  - intros r l Hl Hr. destruct (Ha r l Hl Hr); eauto.
Qed.

Lemma not_elem_of_snoc (f g : Fn) (l : list Fn) : f ∉ l → f ≠ g → f ∉ l ++ [g].
Proof.
  intros Hl Hg [?|?%list_elem_of_singleton]%elem_of_app; contradiction.
Qed.

Lemma invokes_none (f : Fn) (s : State) (l : list Fn) (args : list Val) :
  f ∉ l →
  Forall (λ e, invokes f e = false)
    (map (λ g, (s, Invoke g args)) l).*2.
Proof.
  intros Hl. rewrite Forall_fmap, Forall_map. apply Forall_forall.
  intros g Hg. simpl. apply bool_decide_eq_false. intros ->. contradiction.
Qed.

Lemma on_private (s : State) (n name : Key) (h : Fn) (cb : option Fn) (pending : Ref)
    (registered callbacks : list Fn) (f : Fn) :
  subscribing name pending registered callbacks s →
  apart f pending s →
  f ≠ h →
  (n ≠ name → f ∉ given [cb]) →
  Forall (λ e, invokes f e = false) (trace_of (on n h cb s)) ∧
  apart f pending (state_of (on n h cb s)).
Proof.
  intros [Hwf Hh Hp Harr Hlt Hon Hoff] Hapart Hfh Hfcb.
  pose proof Hapart as [Hah Haa].
  assert (n ≠ name → ∀ g, cb = Some g → f ≠ g) as Hg.
  { intros Hn g -> ->. apply (Hfcb Hn). apply list_elem_of_singleton. reflexivity. }
  assert (∀ l, handlers s !! n = Some l → f ∉ l ++ [h]) as Hpush.
  { intros l Hl. apply not_elem_of_snoc; eauto. }
  rewrite on_unfold. cbv zeta.
  destruct_get (handlers s) n; [destruct_get (pendingOn s) n| |].
  - split; [constructor|]. unfold state_of. cbn [fst].
    apply (apart_step f pending s); [| |exact Hapart].
    + destruct (queued_fields own0 cb (set_handlers <[n := own ++ [h]]> s))
        as (-> & _). simpl.
      intros k l [[_ <-]|[_ ?]]%lookup_insert_Some; eauto.
    + destruct cb as [g|]; simpl; [|eauto].
      intros r l [[<- <-]|[_ ?]]%lookup_insert_Some Hr; [|eauto].
      right. assert (n ≠ name) as Hn by (intros ->; congruence).
      apply not_elem_of_snoc; [|eauto].
      destruct (arrays s !! own0) eqn:E; simpl; [eauto | apply not_elem_of_nil].
  - assert (Forall (λ e, invokes f e = false)
              (trace_of (pushOnInherited cb (set_handlers <[n := own ++ [h]]> s))) ∧
            state_of (pushOnInherited cb (set_handlers <[n := own ++ [h]]> s)) =
              set_handlers <[n := own ++ [h]]> s) as [Ht ->]
      by (destruct cb; split; first [constructor | reflexivity]).
    split; [exact Ht|].
    apply (apart_step f pending s); [| |exact Hapart]; simpl; [|eauto].
    intros k l [[_ <-]|[_ ?]]%lookup_insert_Some; eauto.
  - assert (n ≠ name) as Hn by (intros ->; congruence).
    split.
    + destruct cb as [g|]; [|constructor]. repeat constructor.
      simpl. apply bool_decide_eq_false. intros ->. eapply Hg; eauto.
    + assert (state_of (call cb [] (set_handlers <[n := own ++ [h]]> s)) =
              set_handlers <[n := own ++ [h]]> s) as -> by (destruct cb; reflexivity).
      apply (apart_step f pending s); [| |exact Hapart]; simpl; [|eauto].
      intros k l [[_ <-]|[_ ?]]%lookup_insert_Some; eauto.
  - split; [constructor | exact Hapart].
  - assert (n ≠ name) as Hn by (intros ->; congruence).
    split; [repeat constructor|]. unfold state_of. cbn [fst].
    apply (apart_step f pending s); [| |exact Hapart].
    + destruct (queued_fields (next s) cb
        (set_pendingOn <[n:=next s]>
          (set_arrays <[next s:=[]]> (set_next S (set_handlers <[n:=[h]]> s)))))
        as (-> & _). simpl.
      intros k l [[_ <-]|[_ ?]]%lookup_insert_Some; [right|eauto].
      intros ?%list_elem_of_singleton. contradiction.
    + destruct cb as [g|]; simpl.
      * intros r l [[<- <-]|[_ [[<- <-]|[_ ?]]%lookup_insert_Some]]%lookup_insert_Some Hr;
          [right|right; apply not_elem_of_nil|eauto].
        rewrite lookup_insert_eq. simpl.
        intros ?%list_elem_of_singleton. eapply Hg; eauto.
      * intros r l [[<- <-]|[_ ?]]%lookup_insert_Some Hr;
          [right; apply not_elem_of_nil|eauto].
Qed.

Lemma off_private (s : State) (n name : Key) (h : Fn) (cb : option Fn) (pending : Ref)
    (registered callbacks : list Fn) (f : Fn) :
  subscribing name pending registered callbacks s →
  apart f pending s →
  f ∉ given [cb] →
  Forall (λ e, invokes f e = false) (trace_of (off n h cb s)) ∧
  apart f pending (state_of (off n h cb s)).
Proof.
  intros [Hwf Hh Hp Harr Hlt Hon Hoff] Hapart Hfcb.
  pose proof Hapart as [Hah Haa].
  assert (∀ g, cb = Some g → f ≠ g) as Hg.
  { intros g -> ->. apply Hfcb. apply list_elem_of_singleton. reflexivity. }
  assert (∀ s', Forall (λ e, invokes f e = false) (trace_of (call cb [] s')) ∧
                state_of (call cb [] s') = s') as Hcall.
  { intros s'. destruct cb as [g|]; (split; [|reflexivity]); repeat constructor.
    simpl. apply bool_decide_eq_false. intros ->. eapply Hg; eauto. }
  assert (apart f pending
            (queued (next s) cb
               (set_pendingOff <[n := next s]>
                  (set_arrays <[next s := []]> (set_next S s))))) as Hnew.
  { apply (apart_step f pending s); [| |exact Hapart].
    - destruct (queued_fields (next s) cb
        (set_pendingOff <[n := next s]>
          (set_arrays <[next s := []]> (set_next S s)))) as (-> & _). simpl. eauto.
    - destruct cb as [g|]; simpl.
      + intros r l [[<- <-]|[_ [[<- <-]|[_ ?]]%lookup_insert_Some]]%lookup_insert_Some Hr;
          [right|right; apply not_elem_of_nil|eauto].
        rewrite lookup_insert_eq. simpl.
        intros ?%list_elem_of_singleton. eapply Hg; eauto.
      + intros r l [[<- <-]|[_ ?]]%lookup_insert_Some Hr;
          [right; apply not_elem_of_nil|eauto]. }
  rewrite off_unfold. cbv zeta.
  destruct_get (pendingOff s) n; [| |destruct_get (handlers s) n].
  - split; [constructor|]. unfold state_of. cbn [fst].
    apply (apart_step f pending s); [| |exact Hapart].
    + destruct (queued_fields own cb s) as (-> & _). eauto.
    + destruct cb as [g|]; simpl; [|eauto].
      intros r l [[<- <-]|[_ ?]]%lookup_insert_Some Hr; [|eauto].
      right. apply not_elem_of_snoc; [|eauto].
      destruct (arrays s !! own) eqn:E; simpl; [eauto | apply not_elem_of_nil].
  - destruct cb; (split; [constructor | exact Hapart]).
  - split; [repeat constructor | exact Hnew].
  - split; [repeat constructor | exact Hnew].
  - destruct (Hcall s) as [Ht ->]. split; [exact Ht | exact Hapart].
Qed.

Lemma ack_private (s : State) (k : Closure) (err : Val) (meta : option Meta)
    (pending : Ref) (f : Fn) :
  apart f pending s →
  holds pending (Answer k err meta) = false →
  f ∉ functions_of (Answer k err meta) →
  Forall (λ e, invokes f e = false) (trace_of (answer k err meta s)) ∧
  apart f pending (state_of (answer k err meta s)).
Proof.
  intros Hapart Hholds Hf. pose proof Hapart as [Hah Haa].
  assert (∀ p, p ≠ pending → f ∉ default [] (arrays s !! p)) as Hp.
  { intros p Hne. destruct (arrays s !! p) eqn:E; simpl;
      [eauto | apply not_elem_of_nil]. }
  destruct k as [n p|n p|callback|callback]; cbn [answer holds] in *.
  - apply bool_decide_eq_false in Hholds.
    rewrite subscribed_unfold. split; [apply invokes_none, Hp, Hholds|].
    apply (apart_same_tables f pending s); [reflexivity..|exact Hapart].
  - apply bool_decide_eq_false in Hholds.
    rewrite unsubscribed_unfold. split; [apply invokes_none, Hp, Hholds|].
    apply (apart_step f pending s); [| |exact Hapart]; simpl; [|eauto].
    intros k l [_ ?]%lookup_delete_Some. eauto.
  - split.
    + apply (foreign_no_invoke s (Answer (RouteReply callback) err meta) f);
        [reflexivity | discriminate | exact Hf].
    + destruct (foreign_input_respects s (Answer (RouteReply callback) err meta)
                  eq_refl s (same_subscriptions_refl s)) as [(Eh & _ & _ & Ea & _) _].
      apply (apart_same_tables f pending s); assumption.
  - split; [constructor | exact Hapart].
Qed.

Lemma step_private (s : State) (i : Input) (name : Key) (pending : Ref)
    (registered callbacks : list Fn) (f : Fn) :
  subscribing name pending registered callbacks s →
  apart f pending s →
  holds pending i = false →
  (∀ h cb, registration name i = Some (h, cb) → f ≠ h) →
  (registration name i = None → f ∉ functions_of i) →
  Forall (λ e, invokes f e = false) (trace_of (handle i s)) ∧
  apart f pending (state_of (handle i s)).
Proof.
  intros Hs Hapart Hholds Hreg Hother.
  assert (subscription_input i = false → (∀ n v, i ≠ Event n v) →
          f ∉ functions_of i →
          Forall (λ e, invokes f e = false) (trace_of (handle i s)) ∧
          apart f pending (state_of (handle i s))) as Hforeign.
  { intros Hi Hevent Hf. split.
    - apply foreign_no_invoke; assumption.
    - destruct (foreign_input_respects s i Hi s (same_subscriptions_refl s))
        as [(Eh & _ & _ & Ea & _) _].
      apply (apart_same_tables f pending s); assumption. }
  destruct i as [ | | |n h cb|n h cb| | | | | | |k err meta| | | | | | |n v| ];
    try (apply Hforeign; [reflexivity | discriminate | apply Hother; reflexivity]);
    clear Hforeign; cbn [handle registration functions_of] in *.
  - apply (on_private s n name h cb pending registered callbacks f Hs Hapart).
    + case_decide; [eapply Hreg; reflexivity|].
      intros ->. apply (Hother eq_refl). apply elem_of_cons. auto.
    + intros Hn Hin. rewrite decide_False in Hother by exact Hn.
      apply (Hother eq_refl). apply elem_of_cons. auto.
  - apply (off_private s n name h cb pending registered callbacks f Hs Hapart).
    intros Hin. apply (Hother eq_refl). apply elem_of_cons. auto.
  - apply ack_private; [assumption..|]. apply Hother. reflexivity.
  - rewrite onEvent_unfold. destruct Hapart as [Hah Haa].
    destruct_get (handlers s) n.
    + split; [apply invokes_none; eauto | split; assumption].
    + destruct length as [[|?]|]; (split; [constructor | split; assumption]).
    + split; [constructor | split; assumption].
Qed.

Lemma first_on_apart (s : State) (name : Key) (handler : Fn) (callback : option Fn)
    (f : Fn) :
  inherited name = false → handlers s !! name = None →
  unused f s → f ≠ handler →
  apart f (next s) (state_of (on name handler callback s)).
Proof.
  intros Hname Hh [Huh Hua] Hf.
  rewrite on_unfold, (get_missing _ _ Hh Hname). unfold state_of. cbn [fst].
  destruct (queued_fields (next s) callback
    (set_pendingOn <[name := next s]>
      (set_arrays <[next s := []]> (set_next S (set_handlers <[name := [handler]]> s)))))
    as (Eh & _ & _ & _ & Ea & _).
  split.
  - intros n l. rewrite Eh. simpl.
    intros [[_ <-]|[_ Hl]]%lookup_insert_Some.
    + intros ?%list_elem_of_singleton. contradiction.
    + exact (Huh n l Hl).
  - intros r l Hl Hr. rewrite Ea in Hl by exact Hr. simpl in Hl.
    rewrite lookup_insert_ne in Hl by congruence. exact (Hua r l Hl).
Qed.

Lemma run_private (name : Key) (pending : Ref) (f : Fn) (inputs : list Input) :
  ∀ (s : State) (registered callbacks : list Fn),
    subscribing name pending registered callbacks s →
    apart f pending s →
    f ∉ (omap (registration name) inputs).*1 →
    Forall (λ i, answers_subscribe name i = false ∧
                 answers_unsubscribe name i = false) inputs →
    Forall (λ i, holds pending i = false) inputs →
    Forall (λ i, registration name i = None → f ∉ functions_of i) inputs →
    Forall (λ e, invokes f e = false) (effects (run s inputs).2).
Proof.
  induction inputs as [|i rest IH];
    intros s registered callbacks Hs Hapart Hf Hwin Hheld Hother; [constructor|].
  apply Forall_cons in Hwin as [(Hsub & Hunsub) Hwin].
  apply Forall_cons in Hheld as [Hholds Hheld].
  apply Forall_cons in Hother as [Hi Hother].
  rewrite run_cons. cbn [snd]. rewrite effects_cons. apply Forall_app.
  cbn [omap list_omap] in Hf.
  destruct (step_private s i name pending registered callbacks f Hs Hapart Hholds)
    as [Htrace Hapart'].
  { intros h cb Hreg. rewrite Hreg in Hf. intros ->. apply Hf.
    rewrite fmap_cons. apply elem_of_cons. auto. }
  { exact Hi. }
  split; [exact Htrace|].
  destruct (registration name i) as [[h cb]|] eqn:Hreg.
  - apply registration_Some in Hreg as ->. cbn [handle] in *.
    destruct (subscribing_on s name pending registered callbacks h cb Hs) as [Hs' _].
    eapply IH; [exact Hs'|exact Hapart'| |exact Hwin|exact Hheld|exact Hother].
    intros Hin. apply Hf. rewrite fmap_cons. apply elem_of_cons. auto.
  - destruct (subscribing_other s i name pending registered callbacks Hs Hreg Hsub Hunsub)
      as [Hs' _].
    eapply IH; [exact Hs'|exact Hapart'|exact Hf|exact Hwin|exact Hheld|exact Hother].
Qed.

(** ** Subscribe once, call back after the acknowledgement *)

(** C1 (as amended): take a reachable state with no entry for [name],
    where [name] is not the name of a property of [Object.prototype].
    [on(name, handler, callback)] followed by any inputs among which no
    acknowledgement of a subscribe or of an unsubscribe for [name] arrives
    issues exactly one wire-level subscribe for [name] over the whole run;
    it is the only effect of the registration turns; all handlers
    registered are in the entry, in order.  Before the acknowledgement no
    turn of the run calls a function that was only passed as a registration
    callback: as long as the transport calls no function that holds the
    array of this subscribe, a function that is not in the starting state,
    not one of the handlers registered for [name] and not passed in by
    another input is called by no effect of the run, events for [name]
    included.  When the function given to that subscribe is then called
    with [err], it calls the callbacks that were passed, in registration
    order, each with [err] alone, and then removes the pending entry. *)
Theorem one_subscribe_then_callbacks_in_order (s : State) (name : Key)
    (handler : Fn) (callback : option Fn) (rest : list Input) :
  reachable s →
  inherited name = false →
  handlers s !! name = None →
  Forall (λ i, answers_subscribe name i = false ∧
               answers_unsubscribe name i = false) rest →
  let subscribe :=
    Remote "subscribe" [VStr name] (Some (SubscribeAck name (next s))) in
  let inputs := CallOn name handler callback :: rest in
  let registrations := (handler, callback) :: omap (registration name) rest in
  let waiting := (run s inputs).1 in
  wire_calls "subscribe" name (effects (run s inputs).2) = [subscribe] ∧
  effects_where (registration name) (run s inputs).2 = [subscribe] ∧
  handlers waiting !! name = Some registrations.*1 ∧
  (∀ f, unused f s → f ∉ registrations.*1 →
        Forall (λ i, holds (next s) i = false) rest →
        Forall (λ i, registration name i = None → f ∉ functions_of i) rest →
        Forall (λ e, invokes f e = false) (effects (run s inputs).2)) ∧
  ∀ err meta,
    answer (SubscribeAck name (next s)) err meta waiting =
      (set_pendingOn (delete name) waiting,
       map (λ f, (waiting, Invoke f [err])) (given registrations.*2),
       Normal tt).
Proof.
  intros Hwf%reachable_wf Hname Hh Hwin. cbn zeta.
  rewrite run_cons. cbn [fst snd handle].
  rewrite effects_cons, effects_where_cons, wire_calls_app.
  cbn [registration]. rewrite decide_True by reflexivity.
  destruct (subscribing_first s name handler callback Hwf Hname Hh) as [Hs' Htrace].
  destruct (run_subscribing name (next s) rest _ _ _ Hs' Hwin)
    as ([_ Hhs _ Harr _ _ _] & Hwire & Hturns).
  rewrite Htrace, Hwire, Hturns. rewrite !fmap_cons. cbn [fst snd].
  split; [|split; [reflexivity|split; [exact Hhs|split]]].
  - unfold wire_calls. rewrite filter_cons_True; [reflexivity|].
    simpl. apply bool_decide_eq_true. done.
  - intros f Hunused Hf Hheld Hother. apply Forall_app. split.
    + repeat constructor.
    + apply (run_private name (next s) f rest _ _ _ Hs'); try assumption.
      * apply first_on_apart; try assumption.
        intros ->. apply Hf. apply elem_of_cons. auto.
      * intros Hin. apply Hf. apply elem_of_cons. auto.
  - intros err meta. cbn [answer]. rewrite subscribed_unfold, Harr.
    unfold given. cbn [omap list_omap]. destruct callback; reflexivity.
Qed.

Lemma one_subscribe_then_callbacks_in_order_registering :
  reachable init ∧
  inherited "change" = false ∧
  handlers init !! "change" = None ∧
  wire_calls "subscribe" "change" (effects (run init registering).2) =
    [Remote "subscribe" [VStr "change"] (Some (SubscribeAck "change" 0))] ∧
  effects_where (registration "change") (run init registering).2 =
    [Remote "subscribe" [VStr "change"] (Some (SubscribeAck "change" 0))] ∧
  handlers (run init registering).1 !! "change" = Some [1; 2; 3] ∧
  Forall (λ e, invokes 11 e = false) (effects (run init registering).2) ∧
  effects (run init registering).2 =
    [Remote "subscribe" [VStr "change"] (Some (SubscribeAck "change" 0));
     Invoke 1 [VStr "a.txt"]; Invoke 2 [VStr "a.txt"];
     Remote "unsubscribe" [VStr "change"] (Some (UnsubscribeAck "change" 1));
     Remote "subscribe" [VStr "other"] (Some (SubscribeAck "other" 2))] ∧
  trace_of (answer (SubscribeAck "change" 0) (VObject 0) None
              (run init registering).1) =
    [Invoke 11 [VObject 0]; Invoke 12 [VObject 0]; Invoke 13 [VObject 0]].
Proof.
  assert (reachable init) as Hreach by (exists []; reflexivity).
  split; [exact Hreach|]. split; [reflexivity|]. split; [reflexivity|].
  assert (registering = CallOn "change" 1 (Some 11) :: tail registering) as E
    by reflexivity.
  rewrite E.
  destruct (one_subscribe_then_callbacks_in_order init "change" 1 (Some 11)
              (tail registering) Hreach)
    as (Hwire & Hturns & Hhandlers & Hprivate & Hack).
  - reflexivity.
  - reflexivity.
  - repeat constructor.
  - split; [exact Hwire|]. split; [exact Hturns|]. split; [exact Hhandlers|].
    split.
    + apply (Hprivate 11).
      * split; apply map_Forall_empty.
      * apply (proj1 (bool_decide_eq_false _)). vm_compute. reflexivity.
      * repeat constructor.
      * repeat (apply Forall_cons; split); try apply Forall_nil_2.
        all: cbn [registration functions_of].
        all: try (rewrite decide_True by reflexivity; discriminate).
        all: try rewrite decide_False by discriminate.
        all: intros _; apply (proj1 (bool_decide_eq_false _)); vm_compute; reflexivity.
    + split; [vm_compute; reflexivity|].
      change 0 with (next init) at 1. rewrite (Hack (VObject 0) None). reflexivity.
Defined.

(** C1 (as stated) fails: in this run two handlers are registered for
    "change" by [on] and no acknowledgement of a subscribe arrives, yet two
    wire-level subscribes for "change" are issued, because the
    acknowledgement of the unsubscribe in between deleted the entry; the
    function given to the first subscribe then calls the first callback
    only. *)
Lemma two_subscribes_before_the_acknowledgement :
  Forall (λ i, answers_subscribe "change" i = false) stale_ack ∧
  omap (registration "change") stale_ack = [(1, Some 11); (2, Some 12)] ∧
  wire_calls "subscribe" "change" (effects (run init stale_ack).2) =
    [Remote "subscribe" [VStr "change"] (Some (SubscribeAck "change" 0));
     Remote "subscribe" [VStr "change"] (Some (SubscribeAck "change" 2))] ∧
  trace_of (answer (SubscribeAck "change" 0) VNull None (run init stale_ack).1) =
    [Invoke 11 [VNull]].
Proof.
  split; [repeat constructor|]. repeat split; vm_compute; reflexivity.
Qed.

(** ** Unsubscribe once, drop the whole entry *)

(** C4: in a reachable state with an entry for [name] and no pending
    unsubscribe, [off(name, handler, callback)] followed by any inputs
    among which no acknowledgement of an unsubscribe for [name] arrives
    issues exactly one wire-level unsubscribe for [name] over the whole run;
    it is the only effect of the [off] turns, and the entry is still there
    while the acknowledgement is awaited.  When the function given to that
    unsubscribe is called with [err], it first deletes the entry for [name]
    whatever handlers it holds, then calls the callbacks that were passed,
    in the order queued, each with [err] alone, then removes the pending
    entry. *)
Theorem one_unsubscribe_then_entry_dropped (s : State) (name : Key)
    (handler : Fn) (callback : option Fn) (rest : list Input) :
  reachable s →
  is_Some (handlers s !! name) →
  pendingOff s !! name = None →
  Forall (λ i, answers_unsubscribe name i = false) rest →
  let unsubscribe :=
    Remote "unsubscribe" [VStr name] (Some (UnsubscribeAck name (next s))) in
  let inputs := CallOff name handler callback :: rest in
  let callbacks := given (callback :: omap (deregistration name) rest) in
  let waiting := (run s inputs).1 in
  wire_calls "unsubscribe" name (effects (run s inputs).2) = [unsubscribe] ∧
  effects_where (deregistration name) (run s inputs).2 = [unsubscribe] ∧
  is_Some (handlers waiting !! name) ∧
  ∀ err meta,
    answer (UnsubscribeAck name (next s)) err meta waiting =
      (set_pendingOff (delete name) (set_handlers (delete name) waiting),
       map (λ f, (set_handlers (delete name) waiting, Invoke f [err])) callbacks,
       Normal tt) ∧
    handlers (set_handlers (delete name) waiting) !! name = None ∧
    handlers (state_of (answer (UnsubscribeAck name (next s)) err meta waiting))
      !! name = None ∧
    pendingOff (state_of (answer (UnsubscribeAck name (next s)) err meta waiting))
      !! name = None.
Proof.
  intros Hreach Hh Hp Hwin. cbn zeta.
  pose proof (own_entry_not_inherited s name Hreach Hh) as Hname.
  apply reachable_wf in Hreach as Hwf.
  rewrite run_cons. cbn [fst snd handle].
  rewrite effects_cons, effects_where_cons, wire_calls_app.
  cbn [deregistration]. rewrite decide_True by reflexivity.
  destruct (unsubscribing_first s name handler callback Hwf Hname Hh Hp) as [Hs' Htrace].
  destruct (run_unsubscribing name (next s) rest _ _ Hs' Hwin)
    as ([_ Hhs _ Harr _ _ _] & Hwire & Hturns).
  rewrite Htrace, Hwire, Hturns.
  split; [|split; [reflexivity|split; [exact Hhs|]]].
  { unfold wire_calls. rewrite filter_cons_True; [reflexivity|].
    simpl. apply bool_decide_eq_true. done. }
  intros err meta. cbn [answer]. rewrite unsubscribed_unfold, Harr.
  unfold given. cbn [omap list_omap].
  split; [destruct callback; reflexivity|].
  unfold state_of; simpl. rewrite !lookup_delete_eq. done.
Qed.

Lemma one_unsubscribe_then_entry_dropped_listening :
  reachable (run init listening).1 ∧
  handlers (run init listening).1 !! "change" = Some [1] ∧
  pendingOff (run init listening).1 !! "change" = None ∧
  handlers (run (run init listening).1 (CallOff "change" 1 (Some 21) :: unregistering)).1
    !! "change" = Some [1; 2] ∧
  wire_calls "unsubscribe" "change"
    (effects (run (run init listening).1
                (CallOff "change" 1 (Some 21) :: unregistering)).2) =
    [Remote "unsubscribe" [VStr "change"] (Some (UnsubscribeAck "change" 1))] ∧
  trace_of (answer (UnsubscribeAck "change" 1) VNull None
              (run (run init listening).1
                 (CallOff "change" 1 (Some 21) :: unregistering)).1) =
    [Invoke 21 [VNull]; Invoke 22 [VNull]; Invoke 23 [VNull]] ∧
  handlers (state_of (answer (UnsubscribeAck "change" 1) VNull None
              (run (run init listening).1
                 (CallOff "change" 1 (Some 21) :: unregistering)).1))
    !! "change" = None.
Proof.
  assert (reachable (run init listening).1) as Hreach
    by (exists listening; reflexivity).
  split; [exact Hreach|]. split; [vm_compute; reflexivity|].
  split; [vm_compute; reflexivity|]. split; [vm_compute; reflexivity|].
  destruct (one_unsubscribe_then_entry_dropped (run init listening).1 "change" 1
              (Some 21) unregistering Hreach)
    as (Hwire & _ & _ & Hack).
  - exists [1]. vm_compute. reflexivity.
  - vm_compute. reflexivity.
  - repeat constructor.
  - split; [exact Hwire|].
    destruct (Hack VNull None) as (Heq & _ & Hgone & _).
    change (next (run init listening).1) with 1 in Heq, Hgone.
    split; [rewrite Heq; vm_compute; reflexivity | exact Hgone].
Defined.

(** * Further properties of the module *)

(** ** Streams after end and close *)

(** X1: for a registered stream, an end and a close each emit their event
    on the proxy in the state where it is still registered and then remove
    the entry.  Once the entry is gone an end or a data notification for
    the same id raises a [TypeError]; a close is a no-op, unless the id is a
    name inherited from [Object.prototype], where it raises a [TypeError]
    too: close after end is tolerated for the other ids, end after close
    never. *)
Theorem end_and_close_remove_then_only_close_is_tolerated (s : State) (id : Key)
    (stream : StreamProxy) (chunk : Val) :
  proxyStreams s !! id = Some stream →
  let gone := set_proxyStreams (delete id) s in
  onEnd id s = (gone, [(s, Emit (s_obj stream) "end" [])], Normal tt) ∧
  onClose id s = (gone, [(s, Emit (s_obj stream) "close" [])], Normal tt) ∧
  onClose id gone =
    (gone, [], if inherited id then Throw TypeError else Normal tt) ∧
  onEnd id gone = (gone, [], Throw TypeError) ∧
  onData id chunk gone = (gone, [], Throw TypeError).
Proof.
  intros H gone.
  assert (proxyStreams gone !! id = None) as Hgone by apply lookup_delete_eq.
  repeat split.
  - unfold onEnd. exec. rewrite H. reflexivity.
  - unfold onClose, get. exec. rewrite H. reflexivity.
  - unfold onClose, get, inherited. exec. rewrite Hgone.
    destruct (prototype_length id); reflexivity.
  - unfold onEnd. exec. rewrite Hgone. reflexivity.
  - unfold onData. exec. rewrite Hgone. reflexivity.
Qed.

Lemma end_and_close_remove_then_only_close_is_tolerated_stdin7 :
  proxyStreams (run init spawned).1 !! "3" = Some stdin7 ∧
  onClose "3" (run init spawned).1 =
    (set_proxyStreams (delete "3") (run init spawned).1,
     [((run init spawned).1, Emit 3 "close" [])], Normal tt) ∧
  onEnd "3" (set_proxyStreams (delete "3") (run init spawned).1) =
    (set_proxyStreams (delete "3") (run init spawned).1, [], Throw TypeError) ∧
  onClose "3" (set_proxyStreams (delete "3") (run init spawned).1) =
    (set_proxyStreams (delete "3") (run init spawned).1, [], Normal tt).
Proof.
  assert (proxyStreams (run init spawned).1 !! "3" = Some stdin7) as H
    by (vm_compute; reflexivity).
  destruct (end_and_close_remove_then_only_close_is_tolerated _ _ _ VNull H)
    as (_ & Hclose & Hcc & Hce & _).
  split; [exact H|]. split; [exact Hclose|]. split; [exact Hce | exact Hcc].
Defined.

(** ** After a process has exited *)

(** X2: once the exit of a registered process has been handled, a second
    exit for the same pid raises a [TypeError]; for each of the ids of its
    three streams a later data or end raises a [TypeError], and a later
    close is a no-op unless the id is a name inherited from
    [Object.prototype], where it raises a [TypeError] too.  [kill] on the
    proxy still forwards the signal: it never looks at the registry. *)
Theorem after_exit_only_close_is_tolerated (s : State) (pid : Key)
    (process : ProcessProxy) (code signal chunk : Val) :
  proxyProcesses s !! pid = Some process →
  let gone := state_of (onExit pid code signal s) in
  onExit pid code signal gone = (gone, [], Throw TypeError) ∧
  (∀ id, id ∈ [s_id (p_stdout process); s_id (p_stderr process);
               s_id (p_stdin process)] →
     onData id chunk gone = (gone, [], Throw TypeError) ∧
     onEnd id gone = (gone, [], Throw TypeError) ∧
     onClose id gone =
       (gone, [], if inherited id then Throw TypeError else Normal tt)) ∧
  processKill process signal gone =
    (gone, [(gone, Remote "kill" [VStr (p_pid process); signal] None)], Normal tt).
Proof.
  intros H gone.
  assert (gone = torn_down pid process s) as Hgone.
  { unfold gone, onExit. exec. rewrite H. reflexivity. }
  assert (proxyProcesses gone !! pid = None) as Hpid.
  { rewrite Hgone. unfold torn_down. simpl. apply lookup_delete_eq. }
  split; [unfold onExit; exec; rewrite Hpid; reflexivity|].
  split; [|reflexivity].
  intros id Hid.
  assert (proxyStreams gone !! id = None) as Hnone.
  { rewrite Hgone. unfold torn_down. simpl.
    rewrite !elem_of_cons, elem_of_nil in Hid.
    rewrite !lookup_delete. repeat case_decide; try done.
    destruct Hid as [->|[->|[->|[]]]]; done. }
  repeat split.
  - unfold onData. exec. rewrite Hnone. reflexivity.
  - unfold onEnd. exec. rewrite Hnone. reflexivity.
  - unfold onClose, get, inherited. exec. rewrite Hnone.
    destruct (prototype_length id); reflexivity.
Qed.

Lemma after_exit_only_close_is_tolerated_pid7 :
  is_Some (proxyProcesses (run init spawned).1 !! "7") ∧
  completion_of (onExit "7" (VNum 0) VNull
                   (state_of (onExit "7" (VNum 0) VNull (run init spawned).1))) =
    Throw TypeError ∧
  completion_of (onData "1" (VStr "late")
                   (state_of (onExit "7" (VNum 0) VNull (run init spawned).1))) =
    Throw TypeError ∧
  completion_of (onClose "3"
                   (state_of (onExit "7" (VNum 0) VNull (run init spawned).1))) =
    Normal tt.
Proof.
  assert (proxyProcesses (run init spawned).1 !! "7" =
    Some {| p_obj := 0; p_pid := "7";
            p_stdout := {| s_obj := 1; s_id := "1"; s_readable := VBool true;
                           s_writable := VUndefined |};
            p_stderr := {| s_obj := 2; s_id := "2"; s_readable := VBool true;
                           s_writable := VUndefined |};
            p_stdin := stdin7 |}) as Hpid by (vm_compute; reflexivity).
  split; [rewrite Hpid; eauto|].
  destruct (after_exit_only_close_is_tolerated _ _ _ (VNum 0) VNull (VStr "late") Hpid)
    as (Hexit & Hstreams & _).
  split; [rewrite Hexit; reflexivity|].
  destruct (Hstreams "1") as (Hdata & _ & _); [apply elem_of_cons; left; reflexivity|].
  destruct (Hstreams "3") as (_ & _ & Hclose);
    [apply elem_of_cons; right; apply elem_of_cons; right;
     apply elem_of_cons; left; reflexivity|].
  split; [rewrite Hdata; reflexivity | rewrite Hclose; reflexivity].
Defined.

(** ** Watchers *)


(** ** Methods of a stream proxy *)

(** X4: the proxy built from a stream token has [write] and [end] exactly
    when the token's [writable] is truthy and [destroy] exactly when its
    [readable] is truthy; calling a method it lacks raises a [TypeError].
    Each method forwards the id the token carried, in whatever state it is
    called, also when the registry no longer holds the proxy; [end] passes
    the chunk on only when it is truthy. *)
Theorem stream_methods_forward_the_token_id (s s' : State) (token : StreamToken)
    (chunk : Val) :
  ∃ stream,
    completion_of (makeStreamProxy token s) = Normal stream ∧
    streamWrite stream chunk s' =
      (if truthy (default VUndefined (t_writable token))
       then (s', [(s', Remote "write" [VStr (t_id token); chunk] None)], Normal tt)
       else (s', [], Throw TypeError)) ∧
    streamEnd stream chunk s' =
      (if truthy (default VUndefined (t_writable token))
       then (s', [(s', Remote "end" (if truthy chunk
                                    then [VStr (t_id token); chunk]
                                    else [VStr (t_id token)]) None)], Normal tt)
       else (s', [], Throw TypeError)) ∧
    streamDestroy stream s' =
      (if truthy (default VUndefined (t_readable token))
       then (s', [(s', Remote "destroy" [VStr (t_id token)] None)], Normal tt)
       else (s', [], Throw TypeError)).
Proof.
  eexists. split; [reflexivity|].
  unfold streamWrite, streamEnd, streamDestroy. simpl.
  destruct (truthy (default VUndefined (t_writable token)));
    destruct (truthy (default VUndefined (t_readable token)));
    destruct (truthy chunk); done.
Qed.

(** ** Dynamic apis *)



Lemma ready_turns (s : State) (name : Key) (api : ApiProxy) (n : nat) :
  proxyApis s !! name = Some api →
  "emit" ∉ a_functions api →
  run s (replicate n (Ready name)) =
    (s, replicate n (Ready name, [Emit (a_obj api) "ready" []])).
Proof.
  intros H Hemit. induction n as [|n IH]; [reflexivity|].
  cbn [replicate]. rewrite run_cons. cbn [handle].
  assert (onReady name s = (s, [(s, Emit (a_obj api) "ready" [])], Normal tt)) as ->.
  { unfold onReady, get. exec. rewrite H.
    rewrite bool_decide_eq_false_2 by exact Hemit. reflexivity. }
  unfold state_of, trace_of. cbn [fst snd fmap list_fmap].
  rewrite IH. reflexivity.
Qed.

(** X6: a ready notification for a registered api emits "ready" on its
    proxy and changes nothing, so each further ready notification for the
    name emits it again: nothing in the module makes it a one-time event.
    (A proxy whose declared functions include "emit" is excluded: that
    function would replace the emitter's own.) *)
Theorem every_ready_notification_is_emitted (s : State) (name : Key)
    (api : ApiProxy) (n : nat) :
  proxyApis s !! name = Some api →
  "emit" ∉ a_functions api →
  (run s (replicate n (Ready name))).1 = s ∧
  effects (run s (replicate n (Ready name))).2 =
    replicate n (Emit (a_obj api) "ready" []).
Proof.
  intros H Hemit. rewrite (ready_turns s name api n H Hemit). split; [reflexivity|].
  unfold effects. cbn [snd]. induction n as [|n IH]; [reflexivity|].
  cbn [replicate fmap list_fmap concat snd app]. f_equal. exact IH.
Qed.

Lemma every_ready_notification_is_emitted_math :
  proxyApis (run init extended).1 !! "math" = Some math ∧
  ("emit" ∉ a_functions math) ∧
  effects (run (run init extended).1 (replicate 3 (Ready "math"))).2 =
    replicate 3 (Emit 1 "ready" []).
Proof.
  assert (proxyApis (run init extended).1 !! "math" = Some math) as H
    by (vm_compute; reflexivity).
  assert ("emit" ∉ a_functions math) as Hemit.
  { simpl. rewrite !elem_of_cons, elem_of_nil. intros [?|[?|[]]]; discriminate. }
  split; [exact H|]. split; [exact Hemit|].
  exact (proj2 (every_ready_notification_is_emitted _ _ _ 3 H Hemit)).
Defined.

(** ** Revived identifiers *)



(** ** Process proxies *)



(** X9: registering a process from a token and then handling the exit of
    its pid leaves the process registry and the stream registry as they
    were before, provided the pid and the three stream ids were not in use;
    the only effect of the two steps is the "exit" emitted on the new
    process proxy. *)
Theorem spawn_then_exit_restores_the_registries (s : State) (token : ProcessToken)
    (code signal : Val) :
  proxyProcesses s !! t_pid token = None →
  proxyStreams s !! t_id (t_stdout token) = None →
  proxyStreams s !! t_id (t_stderr token) = None →
  proxyStreams s !! t_id (t_stdin token) = None →
  let made := state_of (makeProcessProxy token s) in
  let exited := state_of (onExit (t_pid token) code signal made) in
  trace_of (onExit (t_pid token) code signal made) =
    [Emit (next s) "exit" [code; signal]] ∧
  completion_of (onExit (t_pid token) code signal made) = Normal tt ∧
  proxyProcesses exited = proxyProcesses s ∧
  proxyStreams exited = proxyStreams s.
Proof.
  intros Hpid Hout Herr Hin made exited.
  assert (proxyProcesses made !! t_pid token =
          Some {| p_obj := next s; p_pid := t_pid token;
                  p_stdout := proxy_of (t_stdout token) (S (next s));
                  p_stderr := proxy_of (t_stderr token) (S (S (next s)));
                  p_stdin := proxy_of (t_stdin token) (S (S (S (next s)))) |}) as Hreg
    by apply lookup_insert_eq.
  assert (onExit (t_pid token) code signal made =
          (torn_down (t_pid token)
             {| p_obj := next s; p_pid := t_pid token;
                p_stdout := proxy_of (t_stdout token) (S (next s));
                p_stderr := proxy_of (t_stderr token) (S (S (next s)));
                p_stdin := proxy_of (t_stdin token) (S (S (S (next s)))) |} made,
           [(made, Emit (next s) "exit" [code; signal])], Normal tt)) as Hexit.
  { remember made as m. unfold onExit. exec. rewrite Hreg. reflexivity. }
  unfold exited. rewrite Hexit. repeat split.
  - unfold torn_down, state_of, made. simpl. apply map_eq. intros k.
    rewrite lookup_delete, lookup_insert. case_decide; subst; done.
  - unfold torn_down, state_of, made. simpl. apply map_eq. intros k.
    rewrite !lookup_delete, !lookup_insert. repeat case_decide; subst; done.
Qed.

Lemma spawn_then_exit_restores_the_registries_pid7 :
  proxyProcesses init !! "7" = None ∧
  proxyStreams
    (state_of (onExit "7" (VNum 0) VNull
                 (state_of (makeProcessProxy
                    {| t_pid := "7";
                       t_stdout := {| t_id := "1"; t_readable := None; t_writable := None |};
                       t_stderr := {| t_id := "2"; t_readable := None; t_writable := None |};
                       t_stdin := {| t_id := "3"; t_readable := None; t_writable := None |} |}
                    init)))) = ∅.
Proof.
  split; [reflexivity|].
  destruct (spawn_then_exit_restores_the_registries init
              {| t_pid := "7";
                 t_stdout := {| t_id := "1"; t_readable := None; t_writable := None |};
                 t_stderr := {| t_id := "2"; t_readable := None; t_writable := None |};
                 t_stdin := {| t_id := "3"; t_readable := None; t_writable := None |} |}
              (VNum 0) VNull eq_refl eq_refl eq_refl eq_refl)
    as (_ & _ & _ & Hstreams).
  exact Hstreams.
Defined.

(** ** A successful reply *)




(** ** Events and the life cycle of a subscription *)

Lemma run_handlers (name : Key) (inputs : list Input) :
  ∀ (s : State) (registered : list Fn),
    handlers s !! name = Some registered →
    Forall (λ i, answers_unsubscribe name i = false) inputs →
    handlers (run s inputs).1 !! name =
      Some (registered ++ (omap (registration name) inputs).*1).
Proof.
  induction inputs as [|i rest IH]; intros s registered Hh Hwin.
  { simpl. rewrite app_nil_r. exact Hh. }
  apply Forall_cons in Hwin as [Hunsub Hrest].
  rewrite run_cons. cbn [fst omap list_omap].
  destruct (registration name i) as [[handler callback]|] eqn:Hreg.
  - apply registration_Some in Hreg as ->. cbn [handle].
    rewrite fmap_cons. cbn [fst].
    rewrite (IH _ (registered ++ [handler])); [|clear IH|exact Hrest].
    + rewrite <- (assoc_L (++)). reflexivity.
    + rewrite on_unfold, (get_own _ _ _ Hh). cbv zeta.
      destruct (get (pendingOn s) name), callback; simpl; apply lookup_insert_eq.
  - destruct (handle_frame s i name) as (Fh & _).
    apply IH; [|exact Hrest]. rewrite Fh; assumption.
Qed.

(** X11: for a [name] that is not inherited from [Object.prototype] and
    has no entry, after inputs with at least one [on(name, ...)] and no
    acknowledgement for [name], an event for [name] calls the handlers registered so far, in registration order
    and each with the value alone, already before the subscribe is
    acknowledged, and in the same way after the acknowledgement; a handler
    registered twice is called twice.  Dispatching changes nothing. *)
Theorem events_reach_handlers_in_order_before_and_after_ack (s : State)
    (name : Key) (inputs : list Input) (value : Val) :
  reachable s →
  inherited name = false →
  handlers s !! name = None →
  Forall (λ i, answers_subscribe name i = false ∧
               answers_unsubscribe name i = false) inputs →
  omap (registration name) inputs ≠ [] →
  let registered := (omap (registration name) inputs).*1 in
  let waiting := (run s inputs).1 in
  let acked := set_pendingOn (delete name) waiting in
  onEvent name value waiting =
    (waiting, map (λ handler, (waiting, Invoke handler [value])) registered, Normal tt) ∧
  onEvent name value acked =
    (acked, map (λ handler, (acked, Invoke handler [value])) registered, Normal tt).
Proof.
  intros Hwf%reachable_wf Hname Hh Hwin Hregs registered waiting acked.
  destruct (run_unregistered name inputs s Hwf Hname Hh Hwin Hregs)
    as (pending & [_ Hhs _ _ _ _ _] & _).
  fold waiting registered in Hhs.
  assert (handlers acked !! name = Some registered) as Hha by exact Hhs.
  rewrite !onEvent_unfold, (get_own _ _ _ Hhs), (get_own _ _ _ Hha). done.
Qed.

Lemma events_reach_handlers_in_order_before_and_after_ack_registering :
  reachable init ∧
  inherited "change" = false ∧
  handlers init !! "change" = None ∧
  trace_of (onEvent "change" (VStr "a.txt") (run init registering).1) =
    [Invoke 1 [VStr "a.txt"]; Invoke 2 [VStr "a.txt"]; Invoke 3 [VStr "a.txt"]].
Proof.
  assert (reachable init) as Hreach by (exists []; reflexivity).
  split; [exact Hreach|]. split; [reflexivity|]. split; [reflexivity|].
  destruct (events_reach_handlers_in_order_before_and_after_ack init "change"
              registering (VStr "a.txt") Hreach) as [Hwaiting _].
  - reflexivity.
  - reflexivity.
  - repeat constructor.
  - discriminate.
  - rewrite Hwaiting. reflexivity.
Defined.

(** X12: in the same setting ([name] not inherited from
    [Object.prototype]), once the subscribe has been acknowledged a
    further [on(name, handler, callback)] appends the handler, calls the
    callback at once with no argument and issues no call to the transport:
    one wire-level subscribe serves every later registration. *)
Theorem on_after_ack_calls_back_at_once (s : State) (name : Key)
    (inputs : list Input) (handler callback : Fn) :
  reachable s →
  inherited name = false →
  handlers s !! name = None →
  Forall (λ i, answers_subscribe name i = false ∧
               answers_unsubscribe name i = false) inputs →
  omap (registration name) inputs ≠ [] →
  let registered := (omap (registration name) inputs).*1 in
  let acked := set_pendingOn (delete name) (run s inputs).1 in
  let again := set_handlers <[name := registered ++ [handler]]> acked in
  on name handler (Some callback) acked =
    (again, [(again, Invoke callback [])], Normal tt).
Proof.
  intros Hwf%reachable_wf Hname Hh Hwin Hregs registered acked again.
  destruct (run_unregistered name inputs s Hwf Hname Hh Hwin Hregs)
    as (pending & [_ Hhs _ _ _ _ _] & _).
  fold registered in Hhs.
  assert (handlers acked !! name = Some registered) as Hha by exact Hhs.
  assert (pendingOn acked !! name = None) as Hpa by apply lookup_delete_eq.
  rewrite on_unfold, (get_own _ _ _ Hha), (get_missing _ _ Hpa Hname).
  reflexivity.
Qed.

Lemma on_after_ack_calls_back_at_once_registering :
  reachable init ∧
  inherited "change" = false ∧
  handlers init !! "change" = None ∧
  trace_of (on "change" 4 (Some 14)
              (set_pendingOn (delete "change") (run init registering).1)) =
    [Invoke 14 []].
Proof.
  assert (reachable init) as Hreach by (exists []; reflexivity).
  split; [exact Hreach|]. split; [reflexivity|]. split; [reflexivity|].
  rewrite (on_after_ack_calls_back_at_once init "change" registering 4 14 Hreach).
  - reflexivity.
  - reflexivity.
  - reflexivity.
  - repeat constructor.
  - discriminate.
Defined.

(** X13: with an entry for [name] and no pending unsubscribe, after
    [off(name, ...)] and then any inputs without the acknowledgement of an
    unsubscribe for [name], events for [name] keep reaching the handlers
    while the acknowledgement is awaited, including the handlers registered
    in the meantime.  After the acknowledgement an event for [name] calls
    nobody, so a handler registered while the unsubscribe was pending is
    dropped with the others, and the next [on(name, ...)] starts over with a
    new wire-level subscribe.  (Were the entry under a name inherited from
    [Object.prototype], which no reachable state has, the reads after the
    acknowledgement would find the inherited value: the event raises a
    [TypeError] when that value is a function with parameters, and [on]
    raises one without subscribing.) *)
Theorem unsubscribe_ack_stops_events_and_resets (s : State) (name : Key)
    (registered : list Fn) (handler : Fn) (callback : option Fn)
    (rest : list Input) (value : Val) (handler' : Fn) (callback' : option Fn) :
  handlers s !! name = Some registered →
  pendingOff s !! name = None →
  Forall (λ i, answers_unsubscribe name i = false) rest →
  let waiting := (run s (CallOff name handler callback :: rest)).1 in
  let acked := set_pendingOff (delete name) (set_handlers (delete name) waiting) in
  trace_of (onEvent name value waiting) =
    map (λ h, Invoke h [value]) (registered ++ (omap (registration name) rest).*1) ∧
  onEvent name value acked =
    (acked, [],
     match prototype_length name with
     | Some (Some (S _)) => Throw TypeError
     | _ => Normal tt
     end) ∧
  trace_of (on name handler' callback' acked) =
    if inherited name then []
    else [Remote "subscribe" [VStr name] (Some (SubscribeAck name (next acked)))].
Proof.
  intros Hh Hp Hwin waiting acked.
  assert (handlers waiting !! name =
          Some (registered ++ (omap (registration name) rest).*1)) as Hhs.
  { pose proof (run_handlers name (CallOff name handler callback :: rest) s
                  registered Hh) as Hrun.
    cbn [omap list_omap registration] in Hrun. apply Hrun.
    constructor; [reflexivity | exact Hwin]. }
  assert (handlers acked !! name = None) as Hgone by apply lookup_delete_eq.
  rewrite !onEvent_unfold, on_unfold, (get_own _ _ _ Hhs).
  unfold get, inherited. rewrite Hgone.
  split; [|split].
  - unfold trace_of. cbn [fst snd]. rewrite <- list_fmap_compose. reflexivity.
  - destruct (prototype_length name) as [[[|arity]|]|]; reflexivity.
  - destruct (prototype_length name); reflexivity.
Qed.

Lemma unsubscribe_ack_stops_events_and_resets_listening :
  handlers (run init listening).1 !! "change" = Some [1] ∧
  pendingOff (run init listening).1 !! "change" = None ∧
  trace_of (onEvent "change" VNull
              (run (run init listening).1
                 (CallOff "change" 1 (Some 21) :: unregistering)).1) =
    [Invoke 1 [VNull]; Invoke 2 [VNull]].
Proof.
  assert (handlers (run init listening).1 !! "change" = Some [1]) as Hh
    by (vm_compute; reflexivity).
  assert (pendingOff (run init listening).1 !! "change" = None) as Hp
    by (vm_compute; reflexivity).
  split; [exact Hh|]. split; [exact Hp|].
  destruct (unsubscribe_ack_stops_events_and_resets (run init listening).1
              "change" [1] 1 (Some 21) unregistering VNull 9 None Hh Hp)
    as (Hevent & _).
  - repeat constructor.
  - rewrite Hevent. reflexivity.
Defined.

(** X14: the function given to [remote.subscribe] calls the callbacks of
    the array it was created with and then deletes [pendingOn[name]]
    whatever array that entry holds.  So when a newer subscribe for the
    name is still pending, the late acknowledgement of an older one clears
    the newer pending entry without calling its callbacks: a registration
    made after that is called back at once although the newer subscribe is
    unacknowledged, and the newer acknowledgement still calls the callbacks
    queued for it.  (Were the entry under a name inherited from
    [Object.prototype], which no reachable state has, that registration
    would find the inherited value where the pending entry was and raise a
    [TypeError] at [push] instead of calling back.) *)
Theorem stale_subscribe_ack_clears_newer_pending_entry (s : State) (name : Key)
    (stale current : Ref) (registered queued_stale queued_current : list Fn)
    (err err' : Val) (handler callback : Fn) :
  handlers s !! name = Some registered →
  pendingOn s !! name = Some current →
  stale ≠ current →
  arrays s !! stale = Some queued_stale →
  arrays s !! current = Some queued_current →
  let cleared := set_pendingOn (delete name) s in
  let again := set_handlers <[name := registered ++ [handler]]> cleared in
  answer (SubscribeAck name stale) err None s =
    (cleared, map (λ f, (s, Invoke f [err])) queued_stale, Normal tt) ∧
  on name handler (Some callback) cleared =
    (if inherited name then (again, [], Throw TypeError)
     else (again, [(again, Invoke callback [])], Normal tt)) ∧
  trace_of (answer (SubscribeAck name current) err' None again) =
    map (λ f, Invoke f [err']) queued_current.
Proof.
  intros Hh Hp Hne Hstale Hcurrent cleared again.
  assert (handlers cleared !! name = Some registered) as Hh' by exact Hh.
  assert (pendingOn cleared !! name = None) as Hp' by apply lookup_delete_eq.
  assert (arrays again !! current = Some queued_current) as Hc' by exact Hcurrent.
  split; [|split].
  - cbn [answer]. rewrite subscribed_unfold, Hstale. reflexivity.
  - rewrite on_unfold, (get_own _ _ _ Hh'). unfold get, inherited. rewrite Hp'.
    destruct (prototype_length name); reflexivity.
  - cbn [answer]. rewrite subscribed_unfold, Hc'.
    unfold trace_of. cbn [fst snd default].
    rewrite <- list_fmap_compose. reflexivity.
Qed.

Lemma stale_subscribe_ack_clears_newer_pending_entry_scenario :
  reachable (run init stale_ack).1 ∧
  pendingOn (run init stale_ack).1 !! "change" = Some 2 ∧
  trace_of (answer (SubscribeAck "change" 0) VNull None (run init stale_ack).1) =
    [Invoke 11 [VNull]] ∧
  trace_of (on "change" 3 (Some 13)
              (set_pendingOn (delete "change") (run init stale_ack).1)) =
    [Invoke 13 []].
Proof.
  split; [exists stale_ack; reflexivity|].
  assert (handlers (run init stale_ack).1 !! "change" = Some [2]) as Hh
    by (vm_compute; reflexivity).
  assert (pendingOn (run init stale_ack).1 !! "change" = Some 2) as Hp
    by (vm_compute; reflexivity).
  assert (arrays (run init stale_ack).1 !! 0 = Some [11]) as Hstale
    by (vm_compute; reflexivity).
  assert (arrays (run init stale_ack).1 !! 2 = Some [12]) as Hcurrent
    by (vm_compute; reflexivity).
  split; [exact Hp|].
  destruct (stale_subscribe_ack_clears_newer_pending_entry (run init stale_ack).1
              "change" 0 2 [2] [11] [12] VNull VNull 3 13 Hh Hp)
    as (Hack & Hon & _); try assumption; [discriminate|].
  rewrite Hack, Hon. split; reflexivity.
Defined.

(** ** The two halves of the state *)

(** X15: the subscription manager and the proxy registries never touch
    each other's state.  [on], [off] and the acknowledgements of subscribe
    and unsubscribe leave the four registries as they are; every other
    input (the facade and its replies, the notifications, the methods of
    the proxies) leaves the handler table, both pending tables and the
    pending arrays as they are, whether it returns or throws. *)
Theorem subscriptions_and_registries_are_independent (s : State) (i : Input) :
  (subscription_input i = true →
     proxyStreams (state_of (handle i s)) = proxyStreams s ∧
     proxyProcesses (state_of (handle i s)) = proxyProcesses s ∧
     proxyWatchers (state_of (handle i s)) = proxyWatchers s ∧
     proxyApis (state_of (handle i s)) = proxyApis s) ∧
  (subscription_input i = false →
     handlers (state_of (handle i s)) = handlers s ∧
     pendingOn (state_of (handle i s)) = pendingOn s ∧
     pendingOff (state_of (handle i s)) = pendingOff s ∧
     arrays (state_of (handle i s)) = arrays s).
Proof.
  split; intros Hsub.
  - subscription_cases i s; try discriminate Hsub; done.
  - destruct (foreign_input_respects s i Hsub s (same_subscriptions_refl s))
      as [(Hh & Hon & Hoff & Harr & _) _].
    done.
Qed.

Lemma subscriptions_and_registries_are_independent_examples :
  proxyStreams (state_of (handle (CallOn "change" 1 None) (run init spawned).1)) =
    proxyStreams (run init spawned).1 ∧
  handlers (state_of (handle (Exit "7" (VNum 0) VNull) (run init listening).1)) =
    handlers (run init listening).1.
Proof.
  split.
  - apply (subscriptions_and_registries_are_independent (run init spawned).1
             (CallOn "change" 1 None)). reflexivity.
  - apply (subscriptions_and_registries_are_independent (run init listening).1
             (Exit "7" (VNum 0) VNull)). reflexivity.
Defined.

(** ** How entries leave the registries *)

Lemma handle_keeps_entries (s : State) (i : Input) :
  (∀ name, respects (λ s, is_Some (proxyApis s !! name)) (λ _, True) (handle i)) ∧
  (∀ pid, (∀ code signal, i ≠ Exit pid code signal) →
     respects (λ s, is_Some (proxyProcesses s !! pid)) (λ _, True) (handle i)) ∧
  (∀ id, (∀ watcher, i = CallClose watcher → w_id watcher ≠ id) →
     respects (λ s, is_Some (proxyWatchers s !! id)) (λ _, True) (handle i)) ∧
  (∀ id, i ≠ End id → i ≠ Close id → (∀ pid code signal, i ≠ Exit pid code signal) →
     respects (λ s, is_Some (proxyStreams s !! id)) (λ _, True) (handle i)).
Proof.
  split; [intros k | split; [intros k Hne | split; [intros k Hne | intros k H1 H2 H3]]].
  all: destruct i as [ | | | | | | | | | | | [ | | | ] | | | | | | | | ];
       program_respects; simpl.
  all: try assumption.
  all: try (rewrite lookup_insert; case_decide; eauto; done).
  all: try (rewrite lookup_delete_ne; [assumption|]; congruence).
  - rewrite lookup_delete_ne; [assumption|]. intros ->. eapply Hne. reflexivity.
  - rewrite lookup_delete_ne; [assumption|]. apply Hne. reflexivity.
Qed.

(** X16: what can make a registry entry disappear.  An api entry never
    disappears.  A process entry disappears only by the exit notification
    for its pid, a watcher entry only by [close] on a proxy with its id, a
    stream entry only by an end or a close for its id or by an exit
    notification.  Every other input leaves an entry under the key (the
    same or a newer one). *)
Theorem entries_leave_only_by_their_teardown (s : State) (i : Input) :
  (∀ name, is_Some (proxyApis s !! name) →
     is_Some (proxyApis (state_of (handle i s)) !! name)) ∧
  (∀ pid, is_Some (proxyProcesses s !! pid) →
     (∀ code signal, i ≠ Exit pid code signal) →
     is_Some (proxyProcesses (state_of (handle i s)) !! pid)) ∧
  (∀ id, is_Some (proxyWatchers s !! id) →
     (∀ watcher, i = CallClose watcher → w_id watcher ≠ id) →
     is_Some (proxyWatchers (state_of (handle i s)) !! id)) ∧
  (∀ id, is_Some (proxyStreams s !! id) →
     i ≠ End id → i ≠ Close id → (∀ pid code signal, i ≠ Exit pid code signal) →
     is_Some (proxyStreams (state_of (handle i s)) !! id)).
Proof.
  destruct (handle_keeps_entries s i) as (Hapi & Hprocess & Hwatcher & Hstream).
  split; [|split; [|split]].
  - intros name H. apply (Hapi name s H).
  - intros pid H Hne. apply (Hprocess pid Hne s H).
  - intros id H Hne. apply (Hwatcher id Hne s H).
  - intros id H H1 H2 H3. apply (Hstream id H1 H2 H3 s H).
Qed.

Lemma entries_leave_only_by_their_teardown_spawned :
  is_Some (proxyStreams (run init spawned).1 !! "3") ∧
  is_Some (proxyStreams (state_of (handle (Data "3" (VStr "x")) (run init spawned).1))
             !! "3") ∧
  is_Some (proxyProcesses (state_of (handle (End "3") (run init spawned).1)) !! "7").
Proof.
  assert (is_Some (proxyStreams (run init spawned).1 !! "3")) as Hstream
    by (exists stdin7; vm_compute; reflexivity).
  assert (is_Some (proxyProcesses (run init spawned).1 !! "7")) as Hprocess
    by (eexists; vm_compute; reflexivity).
  split; [exact Hstream|].
  split.
  - apply (entries_leave_only_by_their_teardown (run init spawned).1
             (Data "3" (VStr "x"))); [exact Hstream|discriminate..].
  - apply (entries_leave_only_by_their_teardown (run init spawned).1 (End "3"));
      [exact Hprocess|discriminate].
Defined.

(** ** Entries are stored under their own identifier *)

Lemma handle_respects_keyed (i : Input) : respects keyed (λ _, True) (handle i).
Proof.
  destruct i as [ | | | | | | | | | | | [ | | | ] | | | | | | | | ];
    program_respects.
  all: match goal with H : keyed _ |- _ => destruct H as [Hs Hp Hw Ha] end.
  all: split; simpl; try assumption.
  all: intros k v Hkv.
  all: try (apply lookup_delete_Some in Hkv as [_ Hkv]; eauto; fail).
  all: apply lookup_insert_Some in Hkv as [[<- <-]|[_ Hkv]]; eauto.
Qed.

Lemma run_keyed (inputs : list Input) (s : State) : keyed s → keyed (run s inputs).1.
Proof.
  revert s. induction inputs as [|i rest IH]; intros s Hs; [exact Hs|].
  rewrite run_cons. apply IH, handle_respects_keyed, Hs.
Qed.

(** X17: in every reachable state each registry entry is stored under the
    identifier the proxy itself carries: a stream under its [id], a process
    under its [pid], a watcher under its [id], an api under its name.  So
    the id a proxy's methods send to the transport is the id under which
    notifications reach it.  No stream object is stored under two ids. *)
Theorem reachable_entries_are_stored_under_their_own_id (s : State) :
  reachable s →
  keyed s ∧
  ∀ id1 id2 stream1 stream2,
    proxyStreams s !! id1 = Some stream1 → proxyStreams s !! id2 = Some stream2 →
    s_obj stream1 = s_obj stream2 → id1 = id2.
Proof.
  intros Hreach. split.
  - destruct Hreach as [inputs <-]. apply run_keyed.
    split; simpl; intros k v Hkv; rewrite lookup_empty in Hkv; discriminate.
  - apply reachable_wf in Hreach as [[_ _ Hinj] _ _]. exact Hinj.
Qed.

Lemma reachable_entries_are_stored_under_their_own_id_spawned :
  reachable (run init spawned).1 ∧ keyed (run init spawned).1.
Proof.
  assert (reachable (run init spawned).1) as Hreach
    by (exists spawned; reflexivity).
  split; [exact Hreach|].
  exact (proj1 (reachable_entries_are_stored_under_their_own_id _ Hreach)).
Defined.

(** ** The pending arrays *)

Lemma queues_ok_same_tables (s s' : State) :
  queues_ok s →
  pendingOn s' = pendingOn s → pendingOff s' = pendingOff s →
  next s ≤ next s' →
  (∀ r, is_Some (arrays s !! r) → is_Some (arrays s' !! r)) →
  queues_ok s'.
Proof.
  intros [Bon Boff Son Soff Ion Ioff Dis] Eon Eoff Hnext Harr.
  split; rewrite ?Eon, ?Eoff; eauto.
  - eapply refs_below_mono; eauto.
  - eapply refs_below_mono; eauto.
Qed.

Lemma queues_ok_fresh_on (s s' : State) (n : Key) :
  queues_ok s →
  pendingOn s' = <[n := next s]> (pendingOn s) → pendingOff s' = pendingOff s →
  next s' = S (next s) →
  (∀ r, is_Some (arrays s !! r) ∨ r = next s → is_Some (arrays s' !! r)) →
  queues_ok s'.
Proof.
  intros [Bon Boff Son Soff Ion Ioff Dis] Eon Eoff Hnext Harr.
  split; rewrite ?Eon, ?Eoff, ?Hnext.
  - apply refs_below_insert; [lia|]. eapply refs_below_mono; [|exact Bon]. lia.
  - eapply refs_below_mono; [|exact Boff]. lia.
  - intros k r [[_ <-]|[_ Hr]]%lookup_insert_Some; eauto.
  - eauto.
  - intros k1 k2 r [[<- <-]|[_ H1]]%lookup_insert_Some
      [[<- Heq]|[_ H2]]%lookup_insert_Some; eauto.
    + specialize (Bon _ _ H2). lia.
    + specialize (Bon _ _ H1). lia.
  - exact Ioff.
  - intros k1 k2 r [[_ <-]|[_ H1]]%lookup_insert_Some H2; eauto.
    specialize (Boff _ _ H2). lia.
Qed.

Lemma queues_ok_fresh_off (s s' : State) (n : Key) :
  queues_ok s →
  pendingOn s' = pendingOn s → pendingOff s' = <[n := next s]> (pendingOff s) →
  next s' = S (next s) →
  (∀ r, is_Some (arrays s !! r) ∨ r = next s → is_Some (arrays s' !! r)) →
  queues_ok s'.
Proof.
  intros [Bon Boff Son Soff Ion Ioff Dis] Eon Eoff Hnext Harr.
  split; rewrite ?Eon, ?Eoff, ?Hnext.
  - eapply refs_below_mono; [|exact Bon]. lia.
  - apply refs_below_insert; [lia|]. eapply refs_below_mono; [|exact Boff]. lia.
  - eauto.
  - intros k r [[_ <-]|[_ Hr]]%lookup_insert_Some; eauto.
  - exact Ion.
  - intros k1 k2 r [[<- <-]|[_ H1]]%lookup_insert_Some
      [[<- Heq]|[_ H2]]%lookup_insert_Some; eauto.
    + specialize (Boff _ _ H2). lia.
    + specialize (Boff _ _ H1). lia.
  - intros k1 k2 r H1 [[_ <-]|[_ H2]]%lookup_insert_Some; eauto.
    specialize (Bon _ _ H1). lia.
Qed.

Lemma queues_ok_delete (s s' : State) (n m : Key) :
  queues_ok s →
  pendingOn s' = pendingOn s ∨ pendingOn s' = delete n (pendingOn s) →
  pendingOff s' = pendingOff s ∨ pendingOff s' = delete m (pendingOff s) →
  next s' = next s → arrays s' = arrays s →
  queues_ok s'.
Proof.
  intros [Bon Boff Son Soff Ion Ioff Dis] Eon Eoff Hnext Harr.
  assert (∀ k r, pendingOn s' !! k = Some r → pendingOn s !! k = Some r) as Hon.
  { intros k r. destruct Eon as [->| ->]; [done|].
    intros [_ ?]%lookup_delete_Some. done. }
  assert (∀ k r, pendingOff s' !! k = Some r → pendingOff s !! k = Some r) as Hoff.
  { intros k r. destruct Eoff as [->| ->]; [done|].
    intros [_ ?]%lookup_delete_Some. done. }
  split; rewrite ?Hnext, ?Harr; unfold refs_below; eauto.
Qed.

Lemma handle_queues_ok (s : State) (i : Input) :
  queues_ok s → queues_ok (state_of (handle i s)).
Proof.
  intros Hok.
  subscription_cases i s; cbn zeta.
  all: try (match goal with H : arrays (state_of _) = _ |- _ => idtac end;
            eapply queues_ok_same_tables; [exact Hok|try assumption..];
            intros r; congruence).
  all: unfold state_of, call, tell, throw; cbn [fst].
  all: try (eapply queues_ok_same_tables; [exact Hok|..];
            [first [reflexivity|assumption] ..| |];
            [simpl; lia | intros r Hr; simpl; rewrite ?lookup_insert;
                          repeat case_decide; eauto]; fail).
  all: try (eapply (queues_ok_fresh_on s _ n); [exact Hok|try reflexivity..];
            intros r [Hr| ->]; simpl; rewrite ?lookup_insert;
            repeat case_decide; eauto; done).
  all: try (eapply (queues_ok_fresh_off s _ n); [exact Hok|try reflexivity..];
            intros r [Hr| ->]; simpl; rewrite ?lookup_insert;
            repeat case_decide; eauto; done).
  all: eapply (queues_ok_delete s _ n n); [exact Hok|..]; simpl; auto.
Qed.

Lemma run_queues_ok (inputs : list Input) (s : State) :
  queues_ok s → queues_ok (run s inputs).1.
Proof.
  revert s. induction inputs as [|i rest IH]; intros s Hs; [exact Hs|].
  rewrite run_cons. apply IH, handle_queues_ok, Hs.
Qed.

(** X18: in every reachable state each array referred to by [pendingOn] or
    [pendingOff] exists, and no array is shared: two names never have the
    same array in one table, and no array is in both tables.  So pushing
    a callback on the pending array of one name changes no other pending
    queue. *)
Theorem reachable_pending_arrays_are_not_shared (s : State) :
  reachable s → queues_ok s.
Proof.
  intros [inputs <-]. apply run_queues_ok.
  split; simpl; unfold refs_below; intros; simplify_map_eq.
Qed.

Lemma reachable_pending_arrays_are_not_shared_stale_ack :
  reachable (run init stale_ack).1 ∧ queues_ok (run init stale_ack).1.
Proof.
  assert (reachable (run init stale_ack).1) as Hreach
    by (exists stale_ack; reflexivity).
  split; [exact Hreach|].
  exact (reachable_pending_arrays_are_not_shared _ Hreach).
Defined.

